(** * LogPatch: a shallow embedding of [logpatch/logpatch.py] and [pkgptch.py]

    The repository holds two programs.  [logpatch/logpatch.py] is the current
    recipe runner; [pkgptch.py] is its predecessor, with the same structure but
    without schema validation, without [log_directory] support, with
    whole-second local timestamps and with log files opened in write mode.
    Both are embedded here: the parts that are textually identical in the two
    files ([subproc_Popen]) are embedded once, the parts that differ live in
    the modules [LogPatch] and [PkgPtch].

    Python effects are modelled by a state-and-exception monad over a [world]
    that records the console, the file system, the open file handles and an
    event trace.  Everything the program cannot decide by itself (what a
    command prints and returns, what the clock shows, whether a path can be
    opened) comes from the [environment] stored in the world. *)

From Stdlib Require Import String Ascii ZArith List Lia Bool.
From stdpp Require Import base option gmap strings.
From Equations Require Import Equations.

Set Warnings "-register-all,-clear-no-such-hyp".

Open Scope string_scope.
Open Scope list_scope.

(** ** Text lines *)

Definition newline : ascii := "010"%char.
Definition nl : string := String newline EmptyString.

(** [io.TextIOWrapper.readline] on the text that is still to come from the
    pipe: the text up to and including the next newline, or everything that is
    left when there is no newline, or the empty string at end of file.  The
    second component is what stays in the pipe. *)
Fixpoint readline (s : string) : string * string :=
  match s with
  | EmptyString => (EmptyString, EmptyString)
  | String c rest =>
      if Ascii.eqb c newline then (String c EmptyString, rest)
      else let '(line, rest') := readline rest in (String c line, rest')
  end.

Lemma readline_append s : fst (readline s) +:+ snd (readline s) = s.
Proof.
  induction s as [|c s IH]; simpl; [reflexivity|].
  destruct (Ascii.eqb c newline); simpl; [reflexivity|].
  destruct (readline s) as [line rest]; simpl in *. now rewrite <- IH.
Qed.

Lemma readline_nonempty c s : fst (readline (String c s)) <> EmptyString.
Proof.
  simpl. destruct (Ascii.eqb c newline); [discriminate|].
  destruct (readline s); discriminate.
Qed.

Lemma readline_empty_iff s : fst (readline s) = EmptyString <-> s = EmptyString.
Proof.
  split; [|intros ->; reflexivity].
  destruct s as [|c s]; [reflexivity|]. intros H. now apply readline_nonempty in H.
Qed.

Lemma readline_shorter s line rest :
  readline s = (line, rest) -> line <> EmptyString ->
  String.length rest < String.length s.
Proof.
  revert line rest. induction s as [|c s IH]; intros line rest; simpl.
  - intros [= <- <-] H. now destruct H.
  - destruct (Ascii.eqb c newline).
    + intros [= <- <-] _. lia.
    + destruct (readline s) as [l r] eqn:E. intros [= <- <-] _.
      destruct s as [|d s]; [simpl in E; injection E as <- <-; simpl; lia|].
      assert (l <> EmptyString) as Hl.
      { pose proof (readline_nonempty d s) as Hn. now rewrite E in Hn. }
      specialize (IH l r eq_refl Hl). lia.
Qed.

Definition inspect {A} (a : A) : {b : A | a = b} := exist _ a eq_refl.

(** [list(iter(stdout.readline, ""))]: call [readline] until it returns the
    sentinel [""]. *)
Equations? iter_readline (stdout : string) : list string
  by wf (String.length stdout) lt :=
  iter_readline stdout with inspect (readline stdout) := {
    | exist _ (EmptyString, _) _ => [];
    | exist _ (String c line, rest) e => String c line :: iter_readline rest }.
Proof.
  eapply readline_shorter; [exact e|discriminate].
Qed.

(** ** Deserialised YAML documents

    What [yaml.safe_load] returns: [None], booleans, integers, strings, lists
    and dictionaries; every other object it can build (floats, dates, byte
    strings, sets) is kept as [YOther], since the program only ever asks
    whether a value is a string, a boolean or a dictionary. *)

Inductive ykey : Type :=
| KStr (s : string)
| KInt (z : Z)
| KBool (b : bool)
| KNull.

Inductive yval : Type :=
| YNull
| YBool (b : bool)
| YInt (z : Z)
| YStr (s : string)
| YOther (tag : string)
| YList (elems : list yval)
| YDict (items : list (ykey * yval)).

(** Python's [==] on dictionary keys: [True == 1] and [False == 0]. *)
Definition key_eqb (a b : ykey) : bool :=
  match a, b with
  | KStr s, KStr t => String.eqb s t
  | KInt x, KInt y => Z.eqb x y
  | KBool x, KBool y => Bool.eqb x y
  | KInt x, KBool y | KBool y, KInt x => Z.eqb x (if y then 1 else 0)
  | KNull, KNull => true
  | _, _ => false
  end.

(** [instance[k]] and [k in instance].  A Python dictionary has no two equal
    keys; on an item list the first binding of a key is the visible one. *)
Fixpoint dict_get (items : list (ykey * yval)) (k : ykey) : option yval :=
  match items with
  | [] => None
  | (k', v) :: items' => if key_eqb k k' then Some v else dict_get items' k
  end.

Definition dict_has (items : list (ykey * yval)) (k : ykey) : bool :=
  match dict_get items k with Some _ => true | None => false end.

(** ** The fragment of [jsonschema.Draft7Validator] that the schema uses

    Keywords [type], [properties], [required] and [additionalProperties],
    evaluated in the order in which the schema dictionaries of the source list
    them.  [additionalProperties] visits the extra keys as a Python [set], in
    no particular order; the model visits them in document order. *)

Inductive jtype : Type := JObject | JString | JBoolean.

Inductive schema : Type :=
| Schema (s_type : option jtype)
         (s_properties : list (string * schema))
         (s_required : list string)
         (s_additionalProperties : option schema).

Definition is_type (inst : yval) (t : jtype) : bool :=
  match t, inst with
  | JObject, YDict _ => true
  | JString, YStr _ => true
  | JBoolean, YBool _ => true
  | _, _ => false
  end.

Inductive error_kind : Type :=
| NotOfType (t : jtype)
| RequiredMissing (property : string).

(** A [ValidationError]: [err_path] is its [absolute_path], the keys leading
    from the document to the offending value. *)
Record validation_error : Type := ValidationError {
  err_path : list ykey;
  err_kind : error_kind
}.

Definition type_errors (ty : option jtype) (path : list ykey) (inst : yval)
  : list validation_error :=
  match ty with
  | Some t => if is_type inst t then [] else [ValidationError path (NotOfType t)]
  | None => []
  end.

Definition required_errors (required : list string) (path : list ykey) (inst : yval)
  : list validation_error :=
  match inst with
  | YDict items =>
      flat_map (fun p => if dict_has items (KStr p) then []
                         else [ValidationError path (RequiredMissing p)]) required
  | _ => []
  end.

Definition is_declared (props : list (string * schema)) (k : ykey) : bool :=
  match k with
  | KStr s => existsb (fun ps => String.eqb s (fst ps)) props
  | _ => false
  end.

Fixpoint iter_errors (s : schema) (path : list ykey) (inst : yval)
  : list validation_error :=
  match s with
  | Schema ty props required additional =>
      type_errors ty path inst
      ++ (fix properties_errors (ps : list (string * schema)) :=
            match ps with
            | [] => []
            | (p, sub) :: ps' =>
                match inst with
                | YDict items =>
                    match dict_get items (KStr p) with
                    | Some v => iter_errors sub (path ++ [KStr p]) v
                    | None => []
                    end
                | _ => []
                end ++ properties_errors ps'
            end) props
      ++ required_errors required path inst
      ++ match additional, inst with
         | Some sub, YDict items =>
             flat_map (fun k => if is_declared props k then []
                                else match dict_get items k with
                                     | Some v => iter_errors sub (path ++ [k]) v
                                     | None => []
                                     end) (map fst items)
         | _, _ => []
         end
  end.

(** ** Dates and [strftime] *)

Record datetime : Type := Datetime {
  year : N; month : N; day : N;
  hour : N; minute : N; second : N; microsecond : N
}.

(** The ranges that Python's [datetime] type enforces on its fields. *)
Definition valid_datetime (dt : datetime) : Prop :=
  (1 <= year dt <= 9999 /\ 1 <= month dt <= 12 /\ 1 <= day dt <= 31 /\
   hour dt < 24 /\ minute dt < 60 /\ second dt < 60 /\
   microsecond dt < 1000000)%N.

Definition digit (n : N) : ascii := ascii_of_N (48 + n mod 10).

(** [n] as [width] decimal digits, zero-padded on the left. *)
Fixpoint digits (width : nat) (n : N) : string :=
  match width with
  | 0 => EmptyString
  | S w => digits w (n / 10) +:+ String (digit n) EmptyString
  end.

(** The directives used by the two programs; any other directive is left in
    the output as it is written. *)
Definition directive (d : ascii) (dt : datetime) : string :=
  if Ascii.eqb d "Y" then digits 4 (year dt)
  else if Ascii.eqb d "m" then digits 2 (month dt)
  else if Ascii.eqb d "d" then digits 2 (day dt)
  else if Ascii.eqb d "H" then digits 2 (hour dt)
  else if Ascii.eqb d "M" then digits 2 (minute dt)
  else if Ascii.eqb d "S" then digits 2 (second dt)
  else if Ascii.eqb d "f" then digits 6 (microsecond dt)
  else String "%" (String d EmptyString).

Fixpoint strftime (fmt : string) (dt : datetime) : string :=
  match fmt with
  | EmptyString => EmptyString
  | String c rest =>
      if Ascii.eqb c "%" then
        match rest with
        | String d rest' => directive d dt +:+ strftime rest' dt
        | EmptyString => String c EmptyString
        end
      else String c (strftime rest dt)
  end.

(** ** [posixpath.join] with two arguments *)

Definition startswith_sep (s : string) : bool :=
  match s with String c _ => Ascii.eqb c "/" | EmptyString => false end.

Fixpoint endswith_sep (s : string) : bool :=
  match s with
  | EmptyString => false
  | String c EmptyString => Ascii.eqb c "/"
  | String _ rest => endswith_sep rest
  end.

Definition path_join (a b : string) : string :=
  if startswith_sep b then b
  else if String.eqb a "" || endswith_sep a then a +:+ b
  else a +:+ "/" +:+ b.

(** ** The world *)

Inductive open_mode : Type := ModeAppend | ModeWrite.

Inductive level : Type := INFO | ERROR | CRITICAL.

(** What the logger is asked to write.  [logger.debug] calls are below the
    configured level and write nothing. *)
Inductive log_record : Type :=
| ExecutingRecipe (name : string)
    (* f"Executing recipe: {recipe['name']}" *)
| SyntaxError (e : validation_error)
    (* "Syntax error in supplied configuration file ...\n" f"{error}" *)
| PathDoesNotExist (config_path : string)
    (* f"Supplied path does not exist: {config_path}" *)
| PathIsNotAFile (config_path : string)
    (* f"Supplied path is not a file: {config_path}" *)
| CaughtYAMLError (details : string)
    (* f"Caught yaml.YAMLError:\n{excpt}" *)
| SchemaMismatch (config_path : string)
    (* f"The supplied configuration file ({config_path}) does not match ..." *)
| CaughtCalledProcessError (returncode : Z) (cmd : string)
    (* f"Caught subprocess.CalledProcessError:\n{excpt}" *).

Inductive clock_kind : Type := UTC | Local.

Inductive event : Type :=
| EvLog (lvl : level) (r : log_record)
| EvClock (k : clock_kind) (dt : datetime)
| EvOpen (path : string) (mode : open_mode)
| EvOpenFailed (path : string) (mode : open_mode)
| EvClose (path : string)
| EvSpawn (cmd : string)
| EvYield (line : string)
| EvPrint (text : string)
| EvWrite (path : string) (text : string)
| EvWait (cmd : string) (returncode : Z).

(** Everything outside the program.  [run_process n cmd] is what the [n]-th
    process spawned in this run does when it is started with [cmd]: the text
    it writes on its merged standard output and error, as the text-mode pipe
    delivers it, and its return code.  [clock n] is the [n]-th reading of the
    clock as a UTC date, [to_local] the conversion to the local time zone.
    [can_open] tells which paths [open] can open for writing (the directory
    exists, is writable, and so on).  [config_at] is what the program finds at
    the path of its configuration file. *)
Inductive config_file : Type :=
| NoSuchPath                      (* not path.exists(config_path) *)
| NotAFile                        (* not path.isfile(config_path) *)
| Unparsable (details : string)   (* yaml.safe_load raises yaml.YAMLError *)
| Parsed (conf : yval).           (* yaml.safe_load returns conf *)

Record environment : Type := Environment {
  run_process : nat -> string -> string * Z;
  clock : nat -> datetime;
  to_local : datetime -> datetime;
  can_open : string -> bool;
  config_at : string -> config_file
}.

Record world : Type := World {
  env : environment;
  console : string;               (* what has been printed on stdout *)
  files : gmap string string;     (* regular files and their content *)
  handles : list string;          (* files currently open for writing *)
  spawned : nat;                  (* processes started so far *)
  ticks : nat;                    (* clock readings so far *)
  trace : list event
}.

Definition emit (e : event) (w : world) : world :=
  World (env w) (console w) (files w) (handles w) (spawned w) (ticks w)
        (trace w ++ [e]).

Definition set_console (c : string) (w : world) : world :=
  World (env w) c (files w) (handles w) (spawned w) (ticks w) (trace w).

Definition set_files (fs : gmap string string) (w : world) : world :=
  World (env w) (console w) fs (handles w) (spawned w) (ticks w) (trace w).

Definition set_handles (hs : list string) (w : world) : world :=
  World (env w) (console w) (files w) hs (spawned w) (ticks w) (trace w).

Definition set_spawned (n : nat) (w : world) : world :=
  World (env w) (console w) (files w) (handles w) n (ticks w) (trace w).

Definition set_ticks (n : nat) (w : world) : world :=
  World (env w) (console w) (files w) (handles w) (spawned w) n (trace w).

(** ** Exceptions and the monad *)

Inductive exn : Type :=
| CalledProcessError (returncode : Z) (cmd : string)
| OSError (path : string)
| KeyError (key : string)
| TypeError
| SystemExit (status : Z)
| Unmodelled.
    (* no exception of Python: the run has come to a value that the program
       goes on to use in a way the model does not follow *)

Inductive outcome (A : Type) : Type :=
| Ok (a : A)
| Raise (e : exn).
Arguments Ok {A} a.
Arguments Raise {A} e.

Definition M (A : Type) : Type := world -> outcome A * world.

Definition ret {A} (a : A) : M A := fun w => (Ok a, w).

Definition raise {A} (e : exn) : M A := fun w => (Raise e, w).

Definition bind {A B} (m : M A) (k : A -> M B) : M B :=
  fun w => match m w with
           | (Ok a, w') => k a w'
           | (Raise e, w') => (Raise e, w')
           end.

Declare Scope py_scope.
Delimit Scope py_scope with py.
Notation "x <- m ;; k" := (bind m (fun x => k))
  (at level 100, m at next level, right associativity) : py_scope.
Notation "m ;; k" := (bind m (fun _ => k))
  (at level 100, right associativity) : py_scope.
Open Scope py_scope.

(** [try: body finally: cleanup]. *)
Definition try_finally {A} (body : M A) (cleanup : M unit) : M A :=
  fun w => match body w with
           | (r, w') => match cleanup w' with
                        | (Ok _, w'') => (r, w'')
                        | (Raise e, w'') => (Raise e, w'')
                        end
           end.

(** [try: body except ...: handler]; [handler e] is [None] for the exceptions
    that no [except] clause catches. *)
Definition try_except {A} (body : M A) (handler : exn -> option (M A)) : M A :=
  fun w => match body w with
           | (Ok a, w') => (Ok a, w')
           | (Raise e, w') => match handler e with
                              | Some h => h w'
                              | None => (Raise e, w')
                              end
           end.

(** The exit status of the interpreter: that of [SystemExit], 1 for any other
    exception that reaches the top, 0 when the script runs off its end. *)
Definition exit_status {A} (r : outcome A) : Z :=
  match r with
  | Ok _ => 0
  | Raise (SystemExit n) => n
  | Raise _ => 1
  end.

(** [for x in xs: body x]. *)
Fixpoint for_each {A} (xs : list A) (body : A -> M unit) : M unit :=
  match xs with
  | [] => ret tt
  | x :: xs' => body x ;; for_each xs' body
  end.

(** ** Primitives of the Python runtime *)

(** Recording an event and nothing else. *)
Definition note (e : event) : M unit := fun w => (Ok tt, emit e w).

Definition log (lvl : level) (r : log_record) : M unit := note (EvLog lvl r).

(** [print(text, end='')]. *)
Definition print (text : string) : M unit :=
  fun w => (Ok tt, emit (EvPrint text) (set_console (console w +:+ text) w)).

(** [datetime.utcnow()] and [datetime.now()]. *)
Definition utcnow : M datetime :=
  fun w => let dt := clock (env w) (ticks w) in
           (Ok dt, emit (EvClock UTC dt) (set_ticks (S (ticks w)) w)).

Definition now : M datetime :=
  fun w => let dt := to_local (env w) (clock (env w) (ticks w)) in
           (Ok dt, emit (EvClock Local dt) (set_ticks (S (ticks w)) w)).

(** [open(path, 'a')] and [open(path, 'w')]: both create a missing file,
    ['w'] also empties an existing one.  The file object is represented by its
    path. *)
Definition open_content (mode : open_mode) (old : option string) : string :=
  match mode, old with
  | ModeAppend, Some text => text
  | _, _ => EmptyString
  end.

Definition py_open (path : string) (mode : open_mode) : M string :=
  fun w =>
    if can_open (env w) path then
      (Ok path,
       emit (EvOpen path mode)
         (set_handles (path :: handles w)
            (set_files (<[path := open_content mode (files w !! path)]> (files w)) w)))
    else (Raise (OSError path), emit (EvOpenFailed path mode) w).

(** [f.write(text)]: the text goes to the end of the file. *)
Definition write (f : string) (text : string) : M unit :=
  fun w =>
    (Ok tt,
     emit (EvWrite f text)
       (set_files (<[f := default EmptyString (files w !! f) +:+ text]> (files w)) w)).

Fixpoint remove_first (f : string) (hs : list string) : list string :=
  match hs with
  | [] => []
  | h :: hs' => if String.eqb f h then hs' else h :: remove_first f hs'
  end.

Definition close (f : string) : M unit :=
  fun w => (Ok tt, emit (EvClose f) (set_handles (remove_first f (handles w)) w)).

(** [with open(path, mode) as f: body f]. *)
Definition with_open {A} (path : string) (mode : open_mode) (body : string -> M A) : M A :=
  f <- py_open path mode ;;
  try_finally (body f) (close f).

(** [subprocess.Popen(cmd, shell=True, stdout=PIPE, stderr=STDOUT,
    universal_newlines=True)]. *)
Record popen_object : Type := PopenObject {
  popen_cmd : string;
  popen_stdout : string;
  popen_returncode : Z
}.

Definition Popen (cmd : string) : M popen_object :=
  fun w => let '(out, rc) := run_process (env w) (spawned w) cmd in
           (Ok (PopenObject cmd out rc),
            emit (EvSpawn cmd) (set_spawned (S (spawned w)) w)).

(** [popen.stdout.close()] followed by [popen.wait()]. *)
Definition wait (p : popen_object) : M Z :=
  fun w => (Ok (popen_returncode p),
            emit (EvWait (popen_cmd p) (popen_returncode p)) w).

(** ** [subproc_Popen], the same in both programs

    A Python generator that is consumed by a [for] loop, which is the only
    way the two programs use it, runs the loop body at each [yield]: the
    generator takes the loop body as [yield_]. *)
Definition subproc_Popen (cmd : string) (yield_ : string -> M unit) : M unit :=
  popen <- Popen cmd ;;
  for_each (iter_readline (popen_stdout popen))
    (fun stdout_line => note (EvYield stdout_line) ;; yield_ stdout_line) ;;
  return_code <- wait popen ;;
  if Z.eqb return_code 0 then ret tt
  else raise (CalledProcessError return_code cmd).

(** ** Recipes

    [exec_recipe] receives a dictionary and reads six of its entries; the
    record holds those six entries with the types the schema gives them. *)
Record recipe_t : Type := Recipe {
  name : string;
  log_directory : string;
  log_package_version_cmd : bool;
  log_patch_cmd : bool;
  patch_cmd : string;
  package_version_cmd : string
}.

Definition get_str (items : list (ykey * yval)) (k : string) : option string :=
  match dict_get items (KStr k) with Some (YStr s) => Some s | _ => None end.

Definition get_bool (items : list (ykey * yval)) (k : string) : option bool :=
  match dict_get items (KStr k) with Some (YBool b) => Some b | _ => None end.

Definition recipe_of (v : yval) : option recipe_t :=
  match v with
  | YDict items =>
      n ← get_str items "name";
      d ← get_str items "log_directory";
      lv ← get_bool items "log_package_version_cmd";
      lp ← get_bool items "log_patch_cmd";
      pc ← get_str items "patch_cmd";
      vc ← get_str items "package_version_cmd";
      Some (Recipe n d lv lp pc vc)
  | _ => None
  end.

(** [conf[selected_recipe]], handed to [run] as a recipe.  Subscripting
    anything but a dictionary with a string is a [TypeError], a missing key a
    [KeyError].  This is the reading of a document that has been validated,
    as in [logpatch.py], where the entry found is a recipe (the last
    [TypeError] is never reached there); [pkgptch.py], which validates
    nothing, reads its entry field by field, see [PkgPtch.exec_recipe_entry]. *)
Definition with_selected (conf : yval) (selected_recipe : string)
    (run : recipe_t -> M unit) : M unit :=
  match conf with
  | YDict items =>
      match dict_get items (KStr selected_recipe) with
      | Some v => match recipe_of v with
                  | Some recipe => run recipe
                  | None => raise TypeError
                  end
      | None => raise (KeyError selected_recipe)
      end
  | _ => raise TypeError
  end.

(** ** Values used without validation

    [value[key]] with a string key: the entry of a dictionary, [KeyError] when
    the dictionary lacks the key, [TypeError] for every other value (none of
    them can be subscripted with a string). *)
Definition subscript (value : yval) (key : string) : M yval :=
  match value with
  | YDict items =>
      match dict_get items (KStr key) with
      | Some v => ret v
      | None => raise (KeyError key)
      end
  | _ => raise TypeError
  end.

(** [if value:], Python's truth value: [None], [False], 0 and the empty
    string, list and dictionary are false, every other of these values is
    true.  The truth value of the objects kept as [YOther] is not modelled. *)
Definition truth (value : yval) : M bool :=
  match value with
  | YNull => ret false
  | YBool b => ret b
  | YInt z => ret (negb (Z.eqb z 0))
  | YStr s => ret (negb (String.eqb s ""))
  | YList elems => ret (match elems with [] => false | _ => true end)
  | YDict items => ret (match items with [] => false | _ => true end)
  | YOther _ => raise Unmodelled
  end.

(** A value that the program formats into a message or a file name, or hands
    to [subprocess.Popen] as the command.  With a string this is the string;
    what Python makes of any other value there is not modelled. *)
Definition as_str (value : yval) : M string :=
  match value with
  | YStr s => ret s
  | _ => raise Unmodelled
  end.

(** ** logpatch/logpatch.py *)
Module LogPatch.

Definition datetime_now_utc : M string :=
  dt <- utcnow ;;
  ret (strftime "%Y%m%dT%H%M%S.%fZ" dt).

Definition string_schema : schema := Schema (Some JString) [] [] None.
Definition boolean_schema : schema := Schema (Some JBoolean) [] [] None.

Definition recipe_schema : schema :=
  Schema (Some JObject)
    [("log_directory", string_schema);
     ("log_package_version_cmd", boolean_schema);
     ("log_patch_cmd", boolean_schema);
     ("name", string_schema);
     ("patch_cmd", string_schema);
     ("package_version_cmd", string_schema)]
    ["log_directory"; "log_package_version_cmd"; "log_patch_cmd"; "name";
     "patch_cmd"; "package_version_cmd"]
    None.

Definition conf_schema : schema :=
  Schema (Some JObject) [] [] (Some recipe_schema).

(** [list(validator.iter_errors(conf))]. *)
Definition errors_of (conf : yval) : list validation_error :=
  iter_errors conf_schema [] conf.

Definition validate_schema_conf (conf : yval) : M Z :=
  let errors := errors_of conf in
  if Nat.eqb (length errors) 0 then ret 0%Z
  else
    for_each errors (fun error => log ERROR (SyntaxError error)) ;;
    ret 1%Z.

Definition execute (cmd : string) (log_file : string) : M unit :=
  if negb (String.eqb log_file "") then
    with_open log_file ModeAppend (fun f_out =>
      subproc_Popen cmd (fun line =>
        print line ;;
        write f_out line))
  else
    subproc_Popen cmd (fun line => print line).

Definition exec_recipe (recipe : recipe_t) : M unit :=
  log INFO (ExecutingRecipe (name recipe)) ;;
  (if log_package_version_cmd recipe then
     ts <- datetime_now_utc ;;
     let log_file_name :=
       path_join (log_directory recipe) (ts +:+ "_package_versions_pre-patch.log") in
     execute (package_version_cmd recipe) log_file_name
   else ret tt) ;;
  (if log_patch_cmd recipe then
     ts <- datetime_now_utc ;;
     let log_file_name :=
       path_join (log_directory recipe) (ts +:+ "_" +:+ name recipe +:+ ".log") in
     execute (patch_cmd recipe) log_file_name
   else
     execute (patch_cmd recipe) "") ;;
  (if log_package_version_cmd recipe then
     ts <- datetime_now_utc ;;
     let log_file_name :=
       path_join (log_directory recipe) (ts +:+ "_package_versions_post-patch.log") in
     execute (package_version_cmd recipe) log_file_name
   else ret tt).

(** The script body after argument parsing. *)
Definition main (config_path selected_recipe : string) : M unit :=
  fun w =>
    match config_at (env w) config_path with
    | NoSuchPath =>
        (log CRITICAL (PathDoesNotExist config_path) ;; raise (SystemExit 1)) w
    | NotAFile =>
        (log CRITICAL (PathIsNotAFile config_path) ;; raise (SystemExit 1)) w
    | Unparsable details =>
        (log CRITICAL (CaughtYAMLError details) ;; raise (SystemExit 1)) w
    | Parsed conf =>
        (status <- validate_schema_conf conf ;;
         if negb (Z.eqb status 0) then
           log CRITICAL (SchemaMismatch config_path) ;;
           raise (SystemExit 1)
         else
           try_except (with_selected conf selected_recipe exec_recipe)
             (fun excpt => match excpt with
                           | CalledProcessError rc cmd =>
                               Some (log ERROR (CaughtCalledProcessError rc cmd))
                           | _ => None
                           end) ;;
           raise (SystemExit 0)) w
    end.

End LogPatch.

(** ** pkgptch.py *)
Module PkgPtch.

Definition execute (cmd : string) (log_file : string) : M unit :=
  if negb (String.eqb log_file "") then
    with_open log_file ModeWrite (fun f_out =>
      subproc_Popen cmd (fun path =>
        print path ;;
        write f_out path))
  else
    subproc_Popen cmd (fun path => print path).

Definition exec_recipe (recipe : recipe_t) : M unit :=
  log INFO (ExecutingRecipe (name recipe)) ;;
  (if log_package_version_cmd recipe then
     dt <- now ;;
     let datetime_now := strftime "%Y%m%dT%H%M%SZ" dt in
     execute (package_version_cmd recipe)
             (datetime_now +:+ "_package_versions_pre-patch.log")
   else ret tt) ;;
  (if log_patch_cmd recipe then
     dt <- now ;;
     let datetime_now := strftime "%Y%m%dT%H%M%SZ" dt in
     execute (patch_cmd recipe)
             (datetime_now +:+ "_" +:+ name recipe +:+ ".log")
   else
     execute (patch_cmd recipe) "") ;;
  (if log_package_version_cmd recipe then
     dt <- now ;;
     let datetime_now := strftime "%Y%m%dT%H%M%SZ" dt in
     execute (package_version_cmd recipe)
             (datetime_now +:+ "_package_versions_post-patch.log")
   else ret tt).

(** [exec_recipe] as the script calls it, on the entry as it was loaded: the
    program validates nothing, so each [recipe['...']] is looked up when the
    statement that holds it is reached, and may fail then.  The flags are
    used for their truth value; [log_directory] is never read.  The name and
    the commands are followed when they are strings, and the run ends with
    [Unmodelled], at the place where the value is read, when they are not.
    On an entry that holds a recipe this is [exec_recipe] of that recipe
    (lemma [exec_recipe_entry_recipe]). *)
Definition exec_recipe_entry (recipe : yval) : M unit :=
  recipe_name <- (v <- subscript recipe "name" ;; as_str v) ;;
  log INFO (ExecutingRecipe recipe_name) ;;
  flag <- (v <- subscript recipe "log_package_version_cmd" ;; truth v) ;;
  (if flag then
     dt <- now ;;
     let datetime_now := strftime "%Y%m%dT%H%M%SZ" dt in
     cmd <- (v <- subscript recipe "package_version_cmd" ;; as_str v) ;;
     execute cmd (datetime_now +:+ "_package_versions_pre-patch.log")
   else ret tt) ;;
  flag <- (v <- subscript recipe "log_patch_cmd" ;; truth v) ;;
  (if flag then
     dt <- now ;;
     let datetime_now := strftime "%Y%m%dT%H%M%SZ" dt in
     cmd <- (v <- subscript recipe "patch_cmd" ;; as_str v) ;;
     recipe_name <- (v <- subscript recipe "name" ;; as_str v) ;;
     execute cmd (datetime_now +:+ "_" +:+ recipe_name +:+ ".log")
   else
     cmd <- (v <- subscript recipe "patch_cmd" ;; as_str v) ;;
     execute cmd "") ;;
  flag <- (v <- subscript recipe "log_package_version_cmd" ;; truth v) ;;
  (if flag then
     dt <- now ;;
     let datetime_now := strftime "%Y%m%dT%H%M%SZ" dt in
     cmd <- (v <- subscript recipe "package_version_cmd" ;; as_str v) ;;
     execute cmd (datetime_now +:+ "_package_versions_post-patch.log")
   else ret tt).

(** The script body after argument parsing: [exec_recipe(conf[selected_recipe])]
    inside the [try], on whatever [yaml.safe_load] returned. *)
Definition main (config_path selected_recipe : string) : M unit :=
  fun w =>
    match config_at (env w) config_path with
    | NoSuchPath =>
        (log CRITICAL (PathDoesNotExist config_path) ;; raise (SystemExit 1)) w
    | NotAFile =>
        (log CRITICAL (PathIsNotAFile config_path) ;; raise (SystemExit 1)) w
    | Unparsable details =>
        (log CRITICAL (CaughtYAMLError details) ;; raise (SystemExit 1)) w
    | Parsed conf =>
        (try_except (recipe <- subscript conf selected_recipe ;;
                     exec_recipe_entry recipe)
           (fun excpt => match excpt with
                         | CalledProcessError rc cmd =>
                             Some (log ERROR (CaughtCalledProcessError rc cmd))
                         | _ => None
                         end) ;;
         raise (SystemExit 0)) w
    end.

End PkgPtch.

(** ** Vocabulary of the statements *)

(** The text of a sequence of lines. *)
Fixpoint join_lines (ls : list string) : string :=
  match ls with
  | [] => EmptyString
  | l :: ls' => l +:+ join_lines ls'
  end.

Fixpoint no_newline (s : string) : bool :=
  match s with
  | EmptyString => true
  | String c rest => negb (Ascii.eqb c newline) && no_newline rest
  end.

(** A line that the process ended with a newline. *)
Fixpoint full_line (s : string) : bool :=
  match s with
  | EmptyString => false
  | String c EmptyString => Ascii.eqb c newline
  | String c rest => negb (Ascii.eqb c newline) && full_line rest
  end.

(** A last line that the process left without a newline. *)
Definition open_line (s : string) : bool :=
  negb (String.eqb s EmptyString) && no_newline s.

(** The lines a process emits: every line ends at its newline, except that
    the last one may lack it. *)
Fixpoint emitted_lines (ls : list string) : bool :=
  match ls with
  | [] => true
  | [l] => full_line l || open_line l
  | l :: ls' => full_line l && emitted_lines ls'
  end.

(** What a trace says about processes, yields and files. *)
Definition spawns (t : list event) : list string :=
  flat_map (fun e => match e with EvSpawn cmd => [cmd] | _ => [] end) t.

Definition yields (t : list event) : list string :=
  flat_map (fun e => match e with EvYield l => [l] | _ => [] end) t.

Definition opens (t : list event) : list string :=
  flat_map (fun e => match e with
                     | EvOpen p _ | EvOpenFailed p _ => [p]
                     | _ => []
                     end) t.

(** The events of [execute] for one line: the line is yielded, printed and,
    with a sink, written, before the next line is asked for. *)
Definition line_events (sink : option string) (l : string) : list event :=
  match sink with
  | Some f => [EvYield l; EvPrint l; EvWrite f l]
  | None => [EvYield l; EvPrint l]
  end.

(** The outcome of waiting for a process that returned [rc]. *)
Definition status_of (rc : Z) (cmd : string) : outcome unit :=
  if Z.eqb rc 0 then Ok tt else Raise (CalledProcessError rc cmd).

(** [execute] in closed form: what one call leaves behind.  With a sink the
    file is opened first, then the process runs and its lines go to the
    console and to the file, then the file is closed; the call fails before
    anything is started when the file cannot be opened, and after everything
    is written when the process returns a non-zero code. *)
Definition executed (mode : open_mode) (cmd log_file : string) (w : world)
  : outcome unit * world :=
  let '(out, rc) := run_process (env w) (spawned w) cmd in
  if String.eqb log_file "" then
    (status_of rc cmd,
     World (env w) (console w +:+ out) (files w) (handles w)
           (S (spawned w)) (ticks w)
           (trace w ++ [EvSpawn cmd]
            ++ flat_map (line_events None) (iter_readline out)
            ++ [EvWait cmd rc]))
  else if can_open (env w) log_file then
    (status_of rc cmd,
     World (env w) (console w +:+ out)
           (<[log_file := open_content mode (files w !! log_file) +:+ out]> (files w))
           (handles w) (S (spawned w)) (ticks w)
           (trace w ++ [EvOpen log_file mode; EvSpawn cmd]
            ++ flat_map (line_events (Some log_file)) (iter_readline out)
            ++ [EvWait cmd rc; EvClose log_file]))
  else (Raise (OSError log_file), emit (EvOpenFailed log_file mode) w).

(** The names of the log files of the two programs. *)
Definition utc_format : string := "%Y%m%dT%H%M%S.%fZ".
Definition local_format : string := "%Y%m%dT%H%M%SZ".

Definition logpatch_log_file (recipe : recipe_t) (dt : datetime) (suffix : string)
  : string :=
  path_join (log_directory recipe) (strftime utc_format dt +:+ "_" +:+ suffix +:+ ".log").

Definition pkgptch_log_file (dt : datetime) (suffix : string) : string :=
  strftime local_format dt +:+ "_" +:+ suffix +:+ ".log".

Definition pre_patch : string := "package_versions_pre-patch".
Definition post_patch : string := "package_versions_post-patch".

(** A logged step of [exec_recipe]: the timestamp is taken, the file name is
    built from it, and the command is executed with that file as its sink. *)
Definition logpatch_logged_step (recipe : recipe_t) (cmd suffix : string) : M unit :=
  ts <- LogPatch.datetime_now_utc ;;
  LogPatch.execute cmd
    (path_join (log_directory recipe) (ts +:+ "_" +:+ suffix +:+ ".log")).

Definition pkgptch_logged_step (cmd suffix : string) : M unit :=
  dt <- now ;;
  let datetime_now := strftime local_format dt in
  PkgPtch.execute cmd (datetime_now +:+ "_" +:+ suffix +:+ ".log").

(** The [k]-th reading of the clock from [w] on, as each program takes it. *)
Definition utc_reading (w : world) (k : nat) : datetime :=
  clock (env w) (k + ticks w).

Definition local_reading (w : world) (k : nat) : datetime :=
  to_local (env w) (clock (env w) (k + ticks w)).

(** Chronological order of two dates: the fields compared from the year
    down to the microsecond. *)
Definition lex (c1 c2 : comparison) : comparison :=
  match c1 with Eq => c2 | _ => c1 end.

Definition datetime_compare (a b : datetime) : comparison :=
  lex (N.compare (year a) (year b))
   (lex (N.compare (month a) (month b))
    (lex (N.compare (day a) (day b))
     (lex (N.compare (hour a) (hour b))
      (lex (N.compare (minute a) (minute b))
       (lex (N.compare (second a) (second b))
            (N.compare (microsecond a) (microsecond b))))))).

(** Two dates that differ at most in their microseconds. *)
Definition same_second (a b : datetime) : Prop :=
  year a = year b /\ month a = month b /\ day a = day b /\
  hour a = hour b /\ minute a = minute b /\ second a = second b.

Fixpoint all_digits (s : string) : bool :=
  match s with
  | EmptyString => true
  | String c rest =>
      (N.leb 48 (N_of_ascii c) && N.leb (N_of_ascii c) 57) && all_digits rest
  end.

(** The shape of a configuration document in words: the six required
    properties with their types; an entry is in order when it is a dictionary
    that has them all; a document is in order when it is a dictionary all of
    whose keys lead to entries in order. *)
Definition required_fields : list (string * jtype) :=
  [("log_directory", JString);
   ("log_package_version_cmd", JBoolean);
   ("log_patch_cmd", JBoolean);
   ("name", JString);
   ("patch_cmd", JString);
   ("package_version_cmd", JString)].

Definition has_field (items : list (ykey * yval)) (f : string * jtype) : bool :=
  match dict_get items (KStr (fst f)) with
  | Some v => is_type v (snd f)
  | None => false
  end.

Definition entry_ok (v : yval) : bool :=
  match v with
  | YDict items => forallb (has_field items) required_fields
  | _ => false
  end.

Definition document_ok (conf : yval) : bool :=
  match conf with
  | YDict items =>
      forallb (fun k => match dict_get items k with
                        | Some v => entry_ok v
                        | None => true
                        end) (map fst items)
  | _ => false
  end.

(** A key that is none of the six property names. *)
Definition undeclared (k : ykey) : bool :=
  forallb (fun f => negb (key_eqb (KStr (fst f)) k)) required_fields.

(** The errors of one entry, property by property. *)
Definition field_errors (path : list ykey) (items : list (ykey * yval))
    (f : string * jtype) : list validation_error :=
  match dict_get items (KStr (fst f)) with
  | Some v => if is_type v (snd f) then []
              else [ValidationError (path ++ [KStr (fst f)]) (NotOfType (snd f))]
  | None => []
  end.

Definition missing_errors (path : list ykey) (items : list (ykey * yval))
    (f : string * jtype) : list validation_error :=
  if dict_has items (KStr (fst f)) then []
  else [ValidationError path (RequiredMissing (fst f))].

(** ** A small world to run the programs in

    Two commands that succeed, each printing one line, and any other command
    failing with code 127 after printing a line and a half; a clock that
    advances by one second per reading; a file system in which [/nonexistent]
    does not exist and [/tmp/logs/old.log] is already there. *)
Definition demo_env : environment :=
  Environment
    (fun _ cmd =>
       if String.eqb cmd "echo v1" then ("v1" +:+ nl, 0%Z)
       else if String.eqb cmd "echo patched" then ("patched" +:+ nl, 0%Z)
       else ("sh: 1: " +:+ cmd +:+ ": not found" +:+ nl +:+ "bye", 127%Z))
    (fun n => Datetime 2022 12 1 10 30 (N.of_nat n) 123456)
    (fun dt => Datetime (year dt) (month dt) (day dt) (hour dt + 13)
                        (minute dt) (second dt) (microsecond dt))
    (fun p => negb (String.prefix "/nonexistent" p))
    (fun p =>
       if String.eqb p "logpatch.yaml" then
         Parsed (YDict
           [(KStr "demo",
             YDict [(KStr "name", YStr "demo");
                    (KStr "log_directory", YStr "/tmp/logs");
                    (KStr "log_package_version_cmd", YBool true);
                    (KStr "log_patch_cmd", YBool true);
                    (KStr "patch_cmd", YStr "echo patched");
                    (KStr "package_version_cmd", YStr "echo v1")]);
            (KStr "broken",
             YDict [(KStr "name", YStr "broken");
                    (KStr "log_directory", YStr "/tmp/logs");
                    (KStr "log_package_version_cmd", YBool true);
                    (KStr "log_patch_cmd", YBool false);
                    (KStr "patch_cmd", YStr "apt-get upgrade");
                    (KStr "package_version_cmd", YStr "echo v1")])])
       else NoSuchPath).

Definition demo_world : world :=
  World demo_env "" {["/tmp/logs/old.log" := "old" +:+ nl]} [] 0 0 [].

Definition demo_recipe : recipe_t :=
  Recipe "demo" "/tmp/logs" true true "echo patched" "echo v1".


(** A recipe whose patch command fails, and one whose inventory fails. *)
Definition broken_recipe : recipe_t :=
  Recipe "broken" "/tmp/logs" true false "apt-get upgrade" "echo v1".

Definition audit_recipe : recipe_t :=
  Recipe "audit" "/tmp/logs" true true "echo patched" "rpm -qa".

(** ** Invariants of whole runs

    [keeps R m]: whatever the outcome of [m], the world it leaves is related
    by [R] to the world it started in. *)
Definition keeps {A} (R : world -> world -> Prop) (m : M A) : Prop :=
  forall w, R w (snd (m w)).

Definition same_handles (w w' : world) : Prop := handles w' = handles w.

(** The text printed by the processes started with [cmds], the first of them
    being the [n]-th process of the run. *)
Fixpoint outputs (e : environment) (n : nat) (cmds : list string) : string :=
  match cmds with
  | [] => EmptyString
  | cmd :: cmds' => fst (run_process e n cmd) +:+ outputs e (S n) cmds'
  end.

(** The console has grown by the output of the processes started meanwhile,
    in the order in which they were started, and by nothing else. *)
Definition console_follows (w w' : world) : Prop :=
  env w' = env w /\
  exists cmds,
    spawns (trace w') = spawns (trace w) ++ cmds /\
    spawned w' = length cmds + spawned w /\
    console w' = console w +:+ outputs (env w) (spawned w) cmds.


(** A stretch of a trace in which files are used one at a time: a file is
    opened only when none is open, [cur] being the one that is open; a write
    goes to the file that is open; the file closed is the one that is open;
    and none is open at the end. *)
Fixpoint one_file_at_a_time (cur : option string) (t : list event) : bool :=
  match t with
  | [] => match cur with None => true | Some _ => false end
  | EvOpen p _ :: t' =>
      match cur with
      | None => one_file_at_a_time (Some p) t'
      | Some _ => false
      end
  | EvClose p :: t' =>
      match cur with
      | Some q => String.eqb p q && one_file_at_a_time None t'
      | None => false
      end
  | EvWrite p _ :: t' =>
      match cur with
      | Some q => String.eqb p q && one_file_at_a_time cur t'
      | None => false
      end
  | _ :: t' => one_file_at_a_time cur t'
  end.

(** The trace has grown by such a stretch. *)
Definition orderly (w w' : world) : Prop :=
  exists added,
    trace w' = trace w ++ added /\ one_file_at_a_time None added = true.

(** Why a script refuses a configuration file before any recipe is looked up:
    the record it logs as critical, or [None] when it goes on.  [validates]
    tells whether the script checks the document against the schema. *)
Definition refusal (validates : bool) (config_path : string) (c : config_file)
  : option log_record :=
  match c with
  | NoSuchPath => Some (PathDoesNotExist config_path)
  | NotAFile => Some (PathIsNotAFile config_path)
  | Unparsable details => Some (CaughtYAMLError details)
  | Parsed conf =>
      if validates && negb (document_ok conf)
      then Some (SchemaMismatch config_path) else None
  end.

Definition refusal_errors (validates : bool) (c : config_file)
  : list validation_error :=
  match c with
  | Parsed conf => if validates then LogPatch.errors_of conf else []
  | _ => []
  end.

(** The commands and log files of a recipe, in the order of its steps; [file]
    names the log file of a step from the number of the clock reading it uses
    and its suffix. *)
Definition planned_commands (recipe : recipe_t) : list string :=
  (if log_package_version_cmd recipe then [package_version_cmd recipe] else [])
  ++ [patch_cmd recipe]
  ++ (if log_package_version_cmd recipe then [package_version_cmd recipe] else []).

Definition planned_files (recipe : recipe_t) (file : nat -> string -> string)
  : list string :=
  let k1 := if log_package_version_cmd recipe then 1 else 0 in
  let k2 := if log_patch_cmd recipe then S k1 else k1 in
  (if log_package_version_cmd recipe then [file 0 pre_patch] else [])
  ++ (if log_patch_cmd recipe then [file k1 (name recipe)] else [])
  ++ (if log_package_version_cmd recipe then [file k2 post_patch] else []).

(** A second small world: configuration files of every kind, and a file
    system in which nothing can be opened. *)
Definition edge_env : environment :=
  Environment
    (fun _ cmd => (cmd +:+ nl, if String.eqb cmd "false" then 1%Z else 0%Z))
    (fun n => Datetime 2023 1 2 3 4 (N.of_nat n) 5)
    (fun dt => dt)
    (fun _ => false)
    (fun p =>
       if String.eqb p "empty.yaml" then Parsed YNull
       else if String.eqb p "tabs.yaml" then Unparsable "found character that cannot start any token"
       else if String.eqb p "/etc" then NotAFile
       else if String.eqb p "partial.yaml" then
         Parsed (YDict [(KStr "web", YDict [(KStr "name", YStr "web");
                                            (KStr "log_patch_cmd", YInt 1)])])
       else if String.eqb p "good.yaml" then
         Parsed (YDict
           [(KStr "web",
             YDict [(KStr "name", YStr "web");
                    (KStr "log_directory", YStr "/var/log/patch");
                    (KStr "log_package_version_cmd", YBool false);
                    (KStr "log_patch_cmd", YBool true);
                    (KStr "patch_cmd", YStr "true");
                    (KStr "package_version_cmd", YStr "dpkg -l")])])
       else NoSuchPath).

Definition edge_world : world := World edge_env "" ∅ [] 0 0 [].

Definition web_recipe : recipe_t :=
  Recipe "web" "/var/log/patch" false true "true" "dpkg -l".

(** * Facts *)

(** ** Strings and lines *)

Lemma append_cons c s t : String c s +:+ t = String c (s +:+ t).
Proof. reflexivity. Qed.

Lemma append_nil_r s : s +:+ "" = s.
Proof. induction s as [|c s IH]; [reflexivity|]. now rewrite append_cons, IH. Qed.

Lemma append_assoc s t u : (s +:+ t) +:+ u = s +:+ t +:+ u.
Proof. induction s as [|c s IH]; [reflexivity|]. now rewrite !append_cons, IH. Qed.

Lemma append_length s t : String.length (s +:+ t) = String.length s + String.length t.
Proof. induction s as [|c s IH]; [reflexivity|]. rewrite append_cons. simpl. now rewrite IH. Qed.

Lemma iter_readline_clause s p (e : readline s = p) :
  iter_readline_unfold_clause_1 s (exist _ p e) =
  match p with
  | (EmptyString, _) => []
  | (line, rest) => line :: iter_readline rest
  end.
Proof. destruct p as [[|c line] rest]; now simp iter_readline. Qed.

Lemma iter_readline_step s :
  iter_readline s =
  match readline s with
  | (EmptyString, _) => []
  | (line, rest) => line :: iter_readline rest
  end.
Proof. rewrite iter_readline_equation_1. apply iter_readline_clause. Qed.

Lemma iter_readline_nil : iter_readline "" = [].
Proof. now rewrite iter_readline_step. Qed.

Lemma readline_full_line l s :
  full_line l = true -> readline (l +:+ s) = (l, s).
Proof.
  induction l as [|c l IH]; [discriminate|].
  rewrite append_cons. simpl. destruct l as [|d l].
  - intros ->. reflexivity.
  - intros [Hc Hl]%andb_prop. apply negb_true_iff in Hc. rewrite Hc.
    now rewrite (IH Hl).
Qed.

Lemma readline_no_newline l : no_newline l = true -> readline l = (l, "").
Proof.
  induction l as [|c l IH]; [reflexivity|].
  simpl. intros [Hc Hl]%andb_prop. apply negb_true_iff in Hc. rewrite Hc.
  now rewrite (IH Hl).
Qed.

(** Reading line by line returns the lines that were emitted ... *)
Lemma iter_readline_join_lines ls :
  emitted_lines ls = true -> iter_readline (join_lines ls) = ls.
Proof.
  induction ls as [|l ls IH]; [intros _; apply iter_readline_nil|].
  destruct ls as [|l' ls].
  - simpl. rewrite append_nil_r. intros [H|H]%orb_prop.
    + rewrite iter_readline_step, <- (append_nil_r l), (readline_full_line _ _ H).
      rewrite append_nil_r, iter_readline_nil.
      destruct l; [discriminate|reflexivity].
    + apply andb_prop in H as [Hn H].
      rewrite iter_readline_step, (readline_no_newline _ H), iter_readline_nil.
      destruct l; [discriminate|reflexivity].
  - intros [Hl Hls]%andb_prop.
    change (join_lines (l :: l' :: ls)) with (l +:+ join_lines (l' :: ls)).
    rewrite iter_readline_step, (readline_full_line _ _ Hl), (IH Hls).
    destruct l; [discriminate|reflexivity].
Qed.

(** ... and loses no text. *)
Lemma join_lines_iter_readline s : join_lines (iter_readline s) = s.
Proof.
  assert (forall n s, String.length s < n -> join_lines (iter_readline s) = s) as H.
  { clear s. induction n as [|n IH]; intros s Hlen; [lia|].
    rewrite iter_readline_step.
    pose proof (readline_append s) as Happ.
    destruct (readline s) as [line rest] eqn:E. simpl in Happ.
    destruct line as [|d line].
    - assert (s = "") as -> by (apply readline_empty_iff; now rewrite E).
      reflexivity.
    - simpl join_lines. rewrite IH; [exact Happ|].
      assert (String.length rest < String.length s)
        by (eapply readline_shorter; [exact E|discriminate]).
      lia. }
  apply (H (S (String.length s))). lia.
Qed.



(** ** The monad *)

Lemma bind_ok {A B} (m : M A) (k : A -> M B) w a w' :
  m w = (Ok a, w') -> bind m k w = k a w'.
Proof. unfold bind. now intros ->. Qed.

Lemma bind_raise {A B} (m : M A) (k : A -> M B) w e w' :
  m w = (Raise e, w') -> bind m k w = (Raise e, w').
Proof. unfold bind. now intros ->. Qed.

(** ** Draining a process *)

Lemma world_eq e c f h s t tr e' c' f' h' s' t' tr' :
  e = e' -> c = c' -> f = f' -> h = h' -> s = s' -> t = t' -> tr = tr' ->
  World e c f h s t tr = World e' c' f' h' s' t' tr'.
Proof. now intros -> -> -> -> -> -> ->. Qed.

Lemma drain_console_loop ls w :
  for_each ls (fun l => note (EvYield l) ;; print l) w =
  (Ok tt,
   World (env w) (console w +:+ join_lines ls) (files w) (handles w)
         (spawned w) (ticks w) (trace w ++ flat_map (line_events None) ls)).
Proof.
  revert w. induction ls as [|l ls IH]; intros w.
  - simpl. unfold ret. destruct w; simpl. now rewrite append_nil_r, app_nil_r.
  - simpl for_each. unfold bind at 1 2. simpl. rewrite IH. simpl.
    f_equal. apply world_eq; try reflexivity.
    + apply append_assoc.
    + now rewrite <- !app_assoc.
Qed.

Lemma drain_sink_loop ls f c w :
  files w !! f = Some c ->
  for_each ls (fun l => note (EvYield l) ;; (print l ;; write f l)) w =
  (Ok tt,
   World (env w) (console w +:+ join_lines ls)
         (<[f := c +:+ join_lines ls]> (files w)) (handles w)
         (spawned w) (ticks w) (trace w ++ flat_map (line_events (Some f)) ls)).
Proof.
  revert c w. induction ls as [|l ls IH]; intros c w Hf.
  - simpl. unfold ret. destruct w; simpl in *.
    rewrite !append_nil_r, app_nil_r. now rewrite insert_id.
  - simpl for_each. unfold bind at 1 2 3. simpl.
    rewrite (IH (c +:+ l)); simpl.
    + f_equal. apply world_eq; try reflexivity.
      * apply append_assoc.
      * now rewrite insert_insert_eq, append_assoc.
      * now rewrite <- !app_assoc.
    + rewrite Hf. simpl. apply lookup_insert_eq.
Qed.

(** [subproc_Popen] under the two loop bodies of [execute]. *)
Lemma subproc_Popen_console cmd w out rc :
  run_process (env w) (spawned w) cmd = (out, rc) ->
  subproc_Popen cmd print w =
  (status_of rc cmd,
   World (env w) (console w +:+ out) (files w) (handles w)
         (S (spawned w)) (ticks w)
         (trace w ++ [EvSpawn cmd]
          ++ flat_map (line_events None) (iter_readline out)
          ++ [EvWait cmd rc])).
Proof.
  intros Erun. unfold subproc_Popen.
  erewrite bind_ok by (unfold Popen; rewrite Erun; reflexivity).
  erewrite bind_ok by apply drain_console_loop.
  unfold bind, wait, status_of. simpl.
  rewrite join_lines_iter_readline.
  destruct (Z.eqb rc 0); unfold ret, raise, emit; simpl;
    now rewrite <- !app_assoc.
Qed.

Lemma subproc_Popen_sink cmd f c w out rc :
  run_process (env w) (spawned w) cmd = (out, rc) ->
  files w !! f = Some c ->
  subproc_Popen cmd (fun line => print line ;; write f line) w =
  (status_of rc cmd,
   World (env w) (console w +:+ out) (<[f := c +:+ out]> (files w)) (handles w)
         (S (spawned w)) (ticks w)
         (trace w ++ [EvSpawn cmd]
          ++ flat_map (line_events (Some f)) (iter_readline out)
          ++ [EvWait cmd rc])).
Proof.
  intros Erun Hf. unfold subproc_Popen.
  erewrite bind_ok by (unfold Popen; rewrite Erun; reflexivity).
  erewrite bind_ok by (apply (drain_sink_loop _ f c); exact Hf).
  unfold bind, wait, status_of. simpl.
  rewrite join_lines_iter_readline.
  destruct (Z.eqb rc 0); unfold ret, raise, emit; simpl;
    now rewrite <- !app_assoc.
Qed.

Lemma with_open_sink mode cmd log_file w :
  (log_file =? "")%string = false ->
  with_open log_file mode (fun f_out =>
    subproc_Popen cmd (fun line => print line ;; write f_out line)) w =
  executed mode cmd log_file w.
Proof.
  intros Elf. unfold executed. rewrite Elf.
  destruct (run_process (env w) (spawned w) cmd) as [out rc] eqn:Erun.
  unfold with_open, py_open.
  destruct (can_open (env w) log_file) eqn:Ecan.
  - erewrite bind_ok by (rewrite Ecan; reflexivity).
    unfold try_finally.
    erewrite (subproc_Popen_sink _ _ (open_content mode (files w !! log_file)));
      [|exact Erun|simpl; apply lookup_insert_eq].
    unfold close, emit. simpl.
    rewrite String.eqb_refl, insert_insert_eq.
    repeat (rewrite <- app_assoc; simpl). reflexivity.
  - erewrite bind_raise by (rewrite Ecan; reflexivity). reflexivity.
Qed.

Lemma logpatch_execute_executed cmd log_file w :
  LogPatch.execute cmd log_file w = executed ModeAppend cmd log_file w.
Proof.
  unfold LogPatch.execute.
  destruct (String.eqb log_file "") eqn:Elf; simpl.
  - unfold executed. rewrite Elf.
    destruct (run_process (env w) (spawned w) cmd) as [out rc] eqn:Erun.
    now apply subproc_Popen_console.
  - now apply with_open_sink.
Qed.

Lemma pkgptch_execute_executed cmd log_file w :
  PkgPtch.execute cmd log_file w = executed ModeWrite cmd log_file w.
Proof.
  unfold PkgPtch.execute.
  destruct (String.eqb log_file "") eqn:Elf; simpl.
  - unfold executed. rewrite Elf.
    destruct (run_process (env w) (spawned w) cmd) as [out rc] eqn:Erun.
    now apply subproc_Popen_console.
  - now apply with_open_sink.
Qed.

Lemma watch_loop ls w :
  for_each ls (fun l => note (EvYield l) ;; ret tt) w =
  (Ok tt,
   World (env w) (console w) (files w) (handles w) (spawned w) (ticks w)
         (trace w ++ map EvYield ls)).
Proof.
  revert w. induction ls as [|l ls IH]; intros w.
  - simpl. unfold ret. destruct w; simpl. now rewrite app_nil_r.
  - simpl for_each. unfold bind at 1 2. simpl. rewrite IH. simpl.
    now rewrite <- app_assoc.
Qed.

(** ** The streaming executor *)

(** C2: when the process writes the lines [ls] and returns [rc], a consumer
    that only looks on sees the process started, then the lines of [ls]
    yielded one by one in their order, then the wait for the process, and only
    then the result: a normal end for [rc = 0], and for any other [rc] the
    error [CalledProcessError rc cmd].  With any loop body the error of the
    process is raised only after the loop has gone through all of [ls]. *)
Theorem subproc_Popen_yields_all_lines_then_status :
  forall (cmd : string) (w : world) (ls : list string) (rc : Z),
    run_process (env w) (spawned w) cmd = (join_lines ls, rc) ->
    emitted_lines ls = true ->
    subproc_Popen cmd (fun _ => ret tt) w =
      (if Z.eqb rc 0 then Ok tt else Raise (CalledProcessError rc cmd),
       World (env w) (console w) (files w) (handles w) (S (spawned w)) (ticks w)
             (trace w ++ [EvSpawn cmd] ++ map EvYield ls ++ [EvWait cmd rc]))
    /\ forall body : string -> M unit,
         subproc_Popen cmd body w =
         match for_each ls (fun l => note (EvYield l) ;; body l)
                 (emit (EvSpawn cmd) (set_spawned (S (spawned w)) w)) with
         | (Ok _, w1) =>
             (if Z.eqb rc 0 then Ok tt else Raise (CalledProcessError rc cmd),
              emit (EvWait cmd rc) w1)
         | (Raise e, w1) => (Raise e, w1)
         end.
Proof.
  intros cmd w ls rc Erun Hls. split.
  - unfold subproc_Popen.
    erewrite bind_ok by (unfold Popen; rewrite Erun; reflexivity).
    simpl popen_stdout. rewrite (iter_readline_join_lines _ Hls).
    erewrite bind_ok by apply watch_loop.
    unfold bind, wait. simpl.
    destruct (Z.eqb rc 0); unfold ret, raise, emit; simpl;
      repeat (rewrite <- app_assoc; simpl); reflexivity.
  - intros body. unfold subproc_Popen.
    erewrite bind_ok by (unfold Popen; rewrite Erun; reflexivity).
    simpl popen_stdout. rewrite (iter_readline_join_lines _ Hls).
    unfold bind at 1.
    destruct (for_each ls _ _) as [[[]|e] w1]; [|reflexivity].
    unfold bind, wait. simpl.
    destruct (Z.eqb rc 0); reflexivity.
Qed.

Lemma subproc_Popen_yields_all_lines_then_status_witness :
  emitted_lines ["sh: 1: false: not found" +:+ nl; "bye"] = true /\
  fst (subproc_Popen "false" (fun _ => ret tt) demo_world) =
    Raise (CalledProcessError 127 "false") /\
  yields (trace (snd (subproc_Popen "false" (fun _ => ret tt) demo_world))) =
    ["sh: 1: false: not found" +:+ nl; "bye"].
Proof.
  pose proof (subproc_Popen_yields_all_lines_then_status
                "false" demo_world ["sh: 1: false: not found" +:+ nl; "bye"] 127%Z
                eq_refl eq_refl) as [H _].
  split; [reflexivity|]. rewrite H. split; reflexivity.
Defined.

(** ** Traces *)

Lemma spawns_app t u : spawns (t ++ u) = spawns t ++ spawns u.
Proof. apply flat_map_app. Qed.

Lemma opens_app t u : opens (t ++ u) = opens t ++ opens u.
Proof. apply flat_map_app. Qed.

Lemma yields_app t u : yields (t ++ u) = yields t ++ yields u.
Proof. apply flat_map_app. Qed.

Lemma spawns_line_events sink ls : spawns (flat_map (line_events sink) ls) = [].
Proof. induction ls as [|l ls IH]; [reflexivity|]. now destruct sink. Qed.

Lemma opens_line_events sink ls : opens (flat_map (line_events sink) ls) = [].
Proof. induction ls as [|l ls IH]; [reflexivity|]. now destruct sink. Qed.

Lemma yields_line_events sink ls : yields (flat_map (line_events sink) ls) = ls.
Proof.
  induction ls as [|l ls IH]; [reflexivity|].
  destruct sink; simpl; now rewrite <- IH at 2.
Qed.

(** ** The dual-sink logger *)

(** C4: one call of [execute] with a file sink that can be opened, in either
    program.  The console grows by the whole output of the process; what the
    call puts into the file is that same text (after the old content in
    [logpatch.py], which appends, and as the whole content in [pkgptch.py],
    which starts the file afresh); line by line, the line is yielded, printed
    and written before the next line is yielded.  Without a sink the same text
    reaches the console and no file is opened, written or changed. *)
Theorem execute_file_receives_console_output :
  forall (cmd log_file : string) (w : world) (out : string) (rc : Z),
    run_process (env w) (spawned w) cmd = (out, rc) ->
    (log_file <> "" ->
     can_open (env w) log_file = true ->
     (let w' := snd (LogPatch.execute cmd log_file w) in
      console w' = console w +:+ out /\
      files w' !! log_file = Some (default "" (files w !! log_file) +:+ out) /\
      trace w' =
        trace w ++ [EvOpen log_file ModeAppend; EvSpawn cmd]
        ++ flat_map (fun l => [EvYield l; EvPrint l; EvWrite log_file l])
                    (iter_readline out)
        ++ [EvWait cmd rc; EvClose log_file]) /\
     (let w' := snd (PkgPtch.execute cmd log_file w) in
      console w' = console w +:+ out /\
      files w' !! log_file = Some out /\
      trace w' =
        trace w ++ [EvOpen log_file ModeWrite; EvSpawn cmd]
        ++ flat_map (fun l => [EvYield l; EvPrint l; EvWrite log_file l])
                    (iter_readline out)
        ++ [EvWait cmd rc; EvClose log_file])) /\
    (let w' := snd (LogPatch.execute cmd "" w) in
     console w' = console w +:+ out /\
     files w' = files w /\
     trace w' =
       trace w ++ [EvSpawn cmd]
       ++ flat_map (fun l => [EvYield l; EvPrint l]) (iter_readline out)
       ++ [EvWait cmd rc]) /\
    (let w' := snd (PkgPtch.execute cmd "" w) in
     console w' = console w +:+ out /\
     files w' = files w /\
     trace w' =
       trace w ++ [EvSpawn cmd]
       ++ flat_map (fun l => [EvYield l; EvPrint l]) (iter_readline out)
       ++ [EvWait cmd rc]).
Proof.
  intros cmd log_file w out rc Erun.
  rewrite !logpatch_execute_executed, !pkgptch_execute_executed.
  unfold executed. rewrite Erun. simpl String.eqb. cbv iota.
  split; [|repeat split; reflexivity].
  intros Hne Hcan. apply String.eqb_neq in Hne. rewrite Hne, Hcan. simpl.
  rewrite !lookup_insert_eq.
  repeat split; reflexivity.
Qed.

Lemma execute_file_receives_console_output_witness :
  let w' := snd (LogPatch.execute "echo v1" "/tmp/logs/old.log" demo_world) in
  console w' = "v1" +:+ nl /\
  files w' !! "/tmp/logs/old.log" = Some ("old" +:+ nl +:+ "v1" +:+ nl).
Proof.
  pose proof (execute_file_receives_console_output
                "echo v1" "/tmp/logs/old.log" demo_world ("v1" +:+ nl) 0%Z eq_refl)
    as [H _].
  destruct H as [(Hc & Hf & _) _]; [discriminate|reflexivity|].
  split; [exact Hc|exact Hf].
Defined.

(** C7, as the two programs have it: with a sink that can be opened,
    [execute] opens the file before the process is started and closes it
    after the process has been waited for, whether the process succeeded or
    [CalledProcessError] is raised; no other file is opened meanwhile and no
    file handle is left open; no other file changes.  [logpatch.py] opens the
    file in append mode: the content the file had before is kept and the
    output comes after it, so a second call on the same path extends the file
    again.  [pkgptch.py] opens it in write mode: whatever the file held, its
    content afterwards is the output of this call, so a second call on the
    same path replaces the content. *)
Theorem execute_holds_the_file_for_the_whole_drain :
  forall (cmd log_file : string) (w : world) (out : string) (rc : Z),
    run_process (env w) (spawned w) cmd = (out, rc) ->
    log_file <> "" ->
    can_open (env w) log_file = true ->
    (let r := fst (LogPatch.execute cmd log_file w) in
     let w' := snd (LogPatch.execute cmd log_file w) in
     r = (if Z.eqb rc 0 then Ok tt else Raise (CalledProcessError rc cmd)) /\
     (exists during,
         trace w' = trace w ++ [EvOpen log_file ModeAppend] ++ during
                    ++ [EvClose log_file] /\
         opens during = [] /\
         spawns during = [cmd] /\
         yields during = iter_readline out) /\
     handles w' = handles w /\
     (forall old, files w !! log_file = Some old ->
                  files w' !! log_file = Some (old +:+ out)) /\
     (files w !! log_file = None -> files w' !! log_file = Some out) /\
     (forall other, other <> log_file -> files w' !! other = files w !! other)) /\
    (let r := fst (PkgPtch.execute cmd log_file w) in
     let w' := snd (PkgPtch.execute cmd log_file w) in
     r = (if Z.eqb rc 0 then Ok tt else Raise (CalledProcessError rc cmd)) /\
     (exists during,
         trace w' = trace w ++ [EvOpen log_file ModeWrite] ++ during
                    ++ [EvClose log_file] /\
         opens during = [] /\
         spawns during = [cmd] /\
         yields during = iter_readline out) /\
     handles w' = handles w /\
     files w' !! log_file = Some out /\
     (forall other, other <> log_file -> files w' !! other = files w !! other)).
Proof.
  intros cmd log_file w out rc Erun Hne Hcan.
  rewrite logpatch_execute_executed, pkgptch_execute_executed.
  unfold executed. rewrite Erun.
  apply String.eqb_neq in Hne. rewrite Hne, Hcan. simpl.
  assert (forall mode,
             exists during,
               trace w ++ EvOpen log_file mode :: EvSpawn cmd
                 :: flat_map (line_events (Some log_file)) (iter_readline out)
                 ++ [EvWait cmd rc; EvClose log_file] =
               trace w ++ EvOpen log_file mode :: during ++ [EvClose log_file] /\
               opens during = [] /\
               spawns during = [cmd] /\
               yields during = iter_readline out) as Hduring.
  { intros mode.
    exists (EvSpawn cmd :: flat_map (line_events (Some log_file)) (iter_readline out)
            ++ [EvWait cmd rc]).
    split; [simpl; now rewrite <- app_assoc|].
    change (EvSpawn cmd :: ?t) with ([EvSpawn cmd] ++ t).
    rewrite !opens_app, !spawns_app, !yields_app,
      opens_line_events, spawns_line_events, yields_line_events.
    simpl. now rewrite app_nil_r. }
  split.
  - split; [reflexivity|]. split; [apply Hduring|]. split; [reflexivity|].
    rewrite lookup_insert_eq. repeat split.
    + now intros old ->.
    + now intros ->.
    + intros other Hother. now rewrite lookup_insert_ne.
  - split; [reflexivity|]. split; [apply Hduring|]. split; [reflexivity|].
    rewrite lookup_insert_eq. split; [reflexivity|].
    intros other Hother. now rewrite lookup_insert_ne.
Qed.

Lemma execute_holds_the_file_for_the_whole_drain_witness :
  (let r := fst (LogPatch.execute "false" "/tmp/logs/old.log" demo_world) in
   let w' := snd (LogPatch.execute "false" "/tmp/logs/old.log" demo_world) in
   r = Raise (CalledProcessError 127 "false") /\
   handles w' = [] /\
   files w' !! "/tmp/logs/old.log" =
     Some ("old" +:+ nl +:+ "sh: 1: false: not found" +:+ nl +:+ "bye")) /\
  (let r := fst (PkgPtch.execute "false" "/tmp/logs/old.log" demo_world) in
   let w' := snd (PkgPtch.execute "false" "/tmp/logs/old.log" demo_world) in
   r = Raise (CalledProcessError 127 "false") /\
   handles w' = [] /\
   files w' !! "/tmp/logs/old.log" =
     Some ("sh: 1: false: not found" +:+ nl +:+ "bye")).
Proof.
  destruct (execute_holds_the_file_for_the_whole_drain
              "false" "/tmp/logs/old.log" demo_world
              ("sh: 1: false: not found" +:+ nl +:+ "bye") 127%Z eq_refl)
    as [(Hr & _ & Hh & Hold & _) (Hr' & _ & Hh' & Hnew & _)];
    [discriminate|reflexivity|].
  split.
  - split; [exact Hr|]. split; [exact Hh|]. exact (Hold _ eq_refl).
  - split; [exact Hr'|]. split; [exact Hh'|]. exact Hnew.
Defined.

(** The same call in [pkgptch.py] opens the file in write mode: the content
    the file had is gone, and the new content does not start with it. *)
Lemma pkgptch_execute_truncates :
  let w' := snd (PkgPtch.execute "echo v1" "/tmp/logs/old.log" demo_world) in
  files demo_world !! "/tmp/logs/old.log" = Some ("old" +:+ nl) /\
  In (EvOpen "/tmp/logs/old.log" ModeWrite) (trace w') /\
  files w' !! "/tmp/logs/old.log" = Some ("v1" +:+ nl) /\
  ~ (exists added, files w' !! "/tmp/logs/old.log" = Some ("old" +:+ nl +:+ added)).
Proof.
  repeat split.
  - vm_compute. left. reflexivity.
  - intros [added H]. vm_compute in H. discriminate.
Qed.

(** C10: in [logpatch.py] the empty string stands for "no file".  A call with
    [log_file = ""] prints the output and neither opens nor changes a file.
    A call with any other string tries to open exactly that path before the
    process is started; when the path cannot be opened, as for a directory
    that does not exist, the call fails with the error of [open] and the
    process is never started. *)
Theorem logpatch_execute_empty_string_means_no_file :
  forall (cmd : string) (w : world),
    (let w' := snd (LogPatch.execute cmd "" w) in
     console w' = console w +:+ fst (run_process (env w) (spawned w) cmd) /\
     opens (trace w') = opens (trace w) /\
     files w' = files w /\
     handles w' = handles w) /\
    (forall log_file : string,
        log_file <> "" ->
        let r := fst (LogPatch.execute cmd log_file w) in
        let w' := snd (LogPatch.execute cmd log_file w) in
        opens (trace w') = opens (trace w) ++ [log_file] /\
        (can_open (env w) log_file = true ->
         In (EvOpen log_file ModeAppend) (trace w') /\
         is_Some (files w' !! log_file)) /\
        (can_open (env w) log_file = false ->
         r = Raise (OSError log_file) /\
         spawned w' = spawned w /\ console w' = console w /\
         files w' = files w)).
Proof.
  intros cmd w. split.
  - rewrite logpatch_execute_executed. unfold executed.
    destruct (run_process (env w) (spawned w) cmd) as [out rc]. simpl.
    repeat split.
    change (EvSpawn cmd :: ?t) with ([EvSpawn cmd] ++ t).
    rewrite !opens_app, opens_line_events. simpl. now rewrite app_nil_r.
  - intros log_file Hne. rewrite logpatch_execute_executed. unfold executed.
    destruct (run_process (env w) (spawned w) cmd) as [out rc].
    apply String.eqb_neq in Hne. rewrite Hne.
    destruct (can_open (env w) log_file); simpl.
    + split; [|split; [intros _|discriminate]].
      * change (EvOpen log_file ModeAppend :: EvSpawn cmd :: ?t)
          with ([EvOpen log_file ModeAppend; EvSpawn cmd] ++ t).
        rewrite !opens_app, opens_line_events. reflexivity.
      * split; [apply in_or_app; right; now left|].
        rewrite lookup_insert_eq. eauto.
    + split; [apply opens_app|]. split; [discriminate|]. intros _. repeat split.
Qed.

Lemma logpatch_execute_empty_string_means_no_file_witness :
  let r := fst (LogPatch.execute "echo v1" "/nonexistent/v.log" demo_world) in
  let w' := snd (LogPatch.execute "echo v1" "/nonexistent/v.log" demo_world) in
  opens (trace w') = ["/nonexistent/v.log"] /\
  r = Raise (OSError "/nonexistent/v.log") /\ spawned w' = 0.
Proof.
  destruct (logpatch_execute_empty_string_means_no_file "echo v1" demo_world)
    as [_ H].
  destruct (H "/nonexistent/v.log") as (Ho & _ & Hfail); [discriminate|].
  destruct (Hfail eq_refl) as (Hr & Hs & _).
  split; [exact Ho|]. split; [exact Hr|exact Hs].
Defined.

(** ** Timestamps and file names *)

Lemma digit_cases n :
  In (digit n) ["0"; "1"; "2"; "3"; "4"; "5"; "6"; "7"; "8"; "9"]%char.
Proof.
  unfold digit. pose proof (N.mod_lt n 10 ltac:(discriminate)) as Hlt.
  destruct (n mod 10)%N as [|p]; [simpl; tauto|].
  repeat (match goal with
          | q : positive |- _ => destruct q; try (simpl; tauto); try lia
          end).
Qed.

Lemma digit_not_sep n : Ascii.eqb (digit n) "/" = false.
Proof.
  pose proof (digit_cases n) as H. simpl in H.
  repeat (destruct H as [<-|H]; [reflexivity|]). destruct H.
Qed.

Lemma strftime_utc_format dt :
  strftime utc_format dt =
  digits 4 (year dt) +:+ digits 2 (month dt) +:+ digits 2 (day dt) +:+ "T"
  +:+ digits 2 (hour dt) +:+ digits 2 (minute dt) +:+ digits 2 (second dt)
  +:+ "." +:+ digits 6 (microsecond dt) +:+ "Z".
Proof. reflexivity. Qed.

Lemma strftime_local_format dt :
  strftime local_format dt =
  digits 4 (year dt) +:+ digits 2 (month dt) +:+ digits 2 (day dt) +:+ "T"
  +:+ digits 2 (hour dt) +:+ digits 2 (minute dt) +:+ digits 2 (second dt)
  +:+ "Z".
Proof. reflexivity. Qed.

Lemma digits_4_head n s :
  digits 4 n +:+ s =
  String (digit (n / 10 / 10 / 10)) (digits 3 n +:+ s).
Proof. reflexivity. Qed.

Lemma append_cons_nonempty a c b : String.eqb (a +:+ String c b) "" = false.
Proof. now destruct a. Qed.

Lemma path_join_relative a c b :
  Ascii.eqb c "/" = false ->
  path_join a (String c b) =
  a +:+ (if String.eqb a "" || endswith_sep a then "" else "/") +:+ String c b.
Proof.
  intros Hc. unfold path_join. simpl startswith_sep. rewrite Hc.
  now destruct (String.eqb a "" || endswith_sep a).
Qed.

(** [path.join] never drops the directory: the file name starts with a digit. *)
Lemma logpatch_log_file_inside recipe dt suffix :
  logpatch_log_file recipe dt suffix =
  log_directory recipe
  +:+ (if String.eqb (log_directory recipe) "" || endswith_sep (log_directory recipe)
       then "" else "/")
  +:+ strftime utc_format dt +:+ "_" +:+ suffix +:+ ".log".
Proof.
  unfold logpatch_log_file. rewrite strftime_utc_format, digits_4_head.
  rewrite append_cons. apply path_join_relative, digit_not_sep.
Qed.

Lemma logpatch_log_file_nonempty recipe dt suffix :
  String.eqb (logpatch_log_file recipe dt suffix) "" = false.
Proof.
  rewrite logpatch_log_file_inside, strftime_utc_format, digits_4_head.
  rewrite append_cons. rewrite <- append_assoc. apply append_cons_nonempty.
Qed.

Lemma pkgptch_log_file_nonempty dt suffix :
  String.eqb (pkgptch_log_file dt suffix) "" = false.
Proof. reflexivity. Qed.

(** ** The steps of a recipe *)

Lemma logpatch_exec_recipe_steps recipe :
  LogPatch.exec_recipe recipe =
  (log INFO (ExecutingRecipe (name recipe)) ;;
   (if log_package_version_cmd recipe
    then logpatch_logged_step recipe (package_version_cmd recipe) pre_patch
    else ret tt) ;;
   (if log_patch_cmd recipe
    then logpatch_logged_step recipe (patch_cmd recipe) (name recipe)
    else LogPatch.execute (patch_cmd recipe) "") ;;
   (if log_package_version_cmd recipe
    then logpatch_logged_step recipe (package_version_cmd recipe) post_patch
    else ret tt)).
Proof. reflexivity. Qed.

Lemma pkgptch_exec_recipe_steps recipe :
  PkgPtch.exec_recipe recipe =
  (log INFO (ExecutingRecipe (name recipe)) ;;
   (if log_package_version_cmd recipe
    then pkgptch_logged_step (package_version_cmd recipe) pre_patch
    else ret tt) ;;
   (if log_patch_cmd recipe
    then pkgptch_logged_step (patch_cmd recipe) (name recipe)
    else PkgPtch.execute (patch_cmd recipe) "") ;;
   (if log_package_version_cmd recipe
    then pkgptch_logged_step (package_version_cmd recipe) post_patch
    else ret tt)).
Proof. reflexivity. Qed.

Lemma logpatch_logged_step_executed recipe cmd suffix w :
  logpatch_logged_step recipe cmd suffix w =
  executed ModeAppend cmd (logpatch_log_file recipe (utc_reading w 0) suffix)
    (emit (EvClock UTC (utc_reading w 0)) (set_ticks (S (ticks w)) w)).
Proof.
  unfold logpatch_logged_step, LogPatch.datetime_now_utc, utcnow, bind, ret.
  apply logpatch_execute_executed.
Qed.

Lemma pkgptch_logged_step_executed cmd suffix w :
  pkgptch_logged_step cmd suffix w =
  executed ModeWrite cmd (pkgptch_log_file (local_reading w 0) suffix)
    (emit (EvClock Local (local_reading w 0)) (set_ticks (S (ticks w)) w)).
Proof.
  unfold pkgptch_logged_step, now, bind.
  apply pkgptch_execute_executed.
Qed.

Lemma status_of_eq rc cmd :
  status_of rc cmd = if Z.eqb rc 0 then Ok tt else Raise (CalledProcessError rc cmd).
Proof. reflexivity. Qed.

(** Reading off the processes and files of a trace built from steps. *)
Ltac read_trace :=
  repeat (progress (rewrite ?spawns_app, ?opens_app, ?spawns_line_events,
                      ?opens_line_events; simpl));
  rewrite ?app_nil_r.

(** One step of [exec_recipe], once the behaviour of its process is known. *)
Ltac world_fields :=
  cbn [env spawned ticks emit set_ticks trace files console handles Nat.add].

Ltac run_step Hrun :=
  unfold executed; unfold utc_reading, local_reading; world_fields;
  rewrite Hrun;
  rewrite ?logpatch_log_file_nonempty, ?pkgptch_log_file_nonempty;
  cbn [String.eqb].

(** ** The recipe runner *)

(** C1: in a recipe that records package versions, in either program.  When
    the command of the first step returns a non-zero code (its log file having
    been opened), [exec_recipe] ends with that [CalledProcessError] and the
    only process it has started is that of the first step: the patch command
    is not run.  When the first step succeeds and the patch command returns a
    non-zero code, [exec_recipe] ends with that [CalledProcessError] after two
    processes: the inventory is not taken a second time. *)
Theorem exec_recipe_stops_at_first_failure :
  forall (recipe : recipe_t) (w : world),
    log_package_version_cmd recipe = true ->
    let vc := package_version_cmd recipe in
    let pc := patch_cmd recipe in
    (forall out rc,
        run_process (env w) (spawned w) vc = (out, rc) -> rc <> 0%Z ->
        (can_open (env w) (logpatch_log_file recipe (utc_reading w 0) pre_patch) = true ->
         let res := LogPatch.exec_recipe recipe w in
         fst res = Raise (CalledProcessError rc vc) /\
         spawned (snd res) = S (spawned w) /\
         spawns (trace (snd res)) = spawns (trace w) ++ [vc]) /\
        (can_open (env w) (pkgptch_log_file (local_reading w 0) pre_patch) = true ->
         let res := PkgPtch.exec_recipe recipe w in
         fst res = Raise (CalledProcessError rc vc) /\
         spawned (snd res) = S (spawned w) /\
         spawns (trace (snd res)) = spawns (trace w) ++ [vc])) /\
    (forall out1 out2 rc,
        run_process (env w) (spawned w) vc = (out1, 0%Z) ->
        run_process (env w) (S (spawned w)) pc = (out2, rc) -> rc <> 0%Z ->
        (can_open (env w) (logpatch_log_file recipe (utc_reading w 0) pre_patch) = true ->
         (log_patch_cmd recipe = true ->
          can_open (env w) (logpatch_log_file recipe (utc_reading w 1) (name recipe)) = true) ->
         let res := LogPatch.exec_recipe recipe w in
         fst res = Raise (CalledProcessError rc pc) /\
         spawned (snd res) = S (S (spawned w)) /\
         spawns (trace (snd res)) = spawns (trace w) ++ [vc; pc]) /\
        (can_open (env w) (pkgptch_log_file (local_reading w 0) pre_patch) = true ->
         (log_patch_cmd recipe = true ->
          can_open (env w) (pkgptch_log_file (local_reading w 1) (name recipe)) = true) ->
         let res := PkgPtch.exec_recipe recipe w in
         fst res = Raise (CalledProcessError rc pc) /\
         spawned (snd res) = S (S (spawned w)) /\
         spawns (trace (snd res)) = spawns (trace w) ++ [vc; pc])).
Proof.
  intros recipe w Hlv vc pc. subst vc pc.
  unfold utc_reading, local_reading. world_fields. split.
  - intros out rc Erun Hrc. apply Z.eqb_neq in Hrc. split; intros Hcan.
    + rewrite logpatch_exec_recipe_steps, Hlv. unfold bind, log, note.
      rewrite logpatch_logged_step_executed.
      run_step Erun. rewrite Hcan, status_of_eq, Hrc.
      cbn [fst snd spawned trace]. repeat split. read_trace. reflexivity.
    + rewrite pkgptch_exec_recipe_steps, Hlv. unfold bind, log, note.
      rewrite pkgptch_logged_step_executed.
      run_step Erun. rewrite Hcan, status_of_eq, Hrc.
      cbn [fst snd spawned trace]. repeat split. read_trace. reflexivity.
  - intros out1 out2 rc Erun1 Erun2 Hrc. apply Z.eqb_neq in Hrc.
    split; intros Hcan1 Hcan2.
    + rewrite logpatch_exec_recipe_steps, Hlv. unfold bind, log, note.
      rewrite logpatch_logged_step_executed.
      run_step Erun1. rewrite Hcan1. cbn [status_of Z.eqb].
      destruct (log_patch_cmd recipe).
      * rewrite logpatch_logged_step_executed.
        run_step Erun2. rewrite (Hcan2 eq_refl), status_of_eq, Hrc.
        cbn [fst snd spawned trace]. repeat split. read_trace.
        now rewrite <- app_assoc.
      * rewrite logpatch_execute_executed.
        run_step Erun2. rewrite status_of_eq, Hrc.
        cbn [fst snd spawned trace]. repeat split. read_trace.
        now rewrite <- app_assoc.
    + rewrite pkgptch_exec_recipe_steps, Hlv. unfold bind, log, note.
      rewrite pkgptch_logged_step_executed.
      run_step Erun1. rewrite Hcan1. cbn [status_of Z.eqb].
      destruct (log_patch_cmd recipe).
      * rewrite pkgptch_logged_step_executed.
        run_step Erun2. rewrite (Hcan2 eq_refl), status_of_eq, Hrc.
        cbn [fst snd spawned trace]. repeat split. read_trace.
        now rewrite <- app_assoc.
      * rewrite pkgptch_execute_executed.
        run_step Erun2. rewrite status_of_eq, Hrc.
        cbn [fst snd spawned trace]. repeat split. read_trace.
        now rewrite <- app_assoc.
Qed.

Lemma exec_recipe_stops_at_first_failure_witness :
  (fst (LogPatch.exec_recipe audit_recipe demo_world) =
     Raise (CalledProcessError 127 "rpm -qa") /\
   spawns (trace (snd (LogPatch.exec_recipe audit_recipe demo_world))) = ["rpm -qa"]) /\
  (fst (PkgPtch.exec_recipe broken_recipe demo_world) =
     Raise (CalledProcessError 127 "apt-get upgrade") /\
   spawns (trace (snd (PkgPtch.exec_recipe broken_recipe demo_world))) =
     ["echo v1"; "apt-get upgrade"]).
Proof.
  split.
  - destruct (exec_recipe_stops_at_first_failure audit_recipe demo_world eq_refl)
      as [Ha _].
    destruct (Ha ("sh: 1: rpm -qa: not found" +:+ nl +:+ "bye") 127%Z eq_refl)
      as [Hlog _]; [discriminate|].
    destruct (Hlog eq_refl) as (Hr & _ & Hs). split; [exact Hr|exact Hs].
  - destruct (exec_recipe_stops_at_first_failure broken_recipe demo_world eq_refl)
      as [_ Hb].
    destruct (Hb ("v1" +:+ nl)
                 ("sh: 1: apt-get upgrade: not found" +:+ nl +:+ "bye") 127%Z
                 eq_refl eq_refl)
      as [_ Hpkg]; [discriminate|].
    destruct (Hpkg eq_refl) as (Hr & _ & Hs); [discriminate|].
    split; [exact Hr|exact Hs].
Defined.







Lemma length_digits width n : String.length (digits width n) = width.
Proof.
  revert n. induction width as [|width IH]; intros n; [reflexivity|].
  simpl digits. rewrite append_length, IH. simpl. lia.
Qed.

Lemma length_strftime_utc dt : String.length (strftime utc_format dt) = 23.
Proof.
  rewrite strftime_utc_format. repeat rewrite append_length, length_digits.
  reflexivity.
Qed.

Lemma length_strftime_local dt : String.length (strftime local_format dt) = 16.
Proof.
  rewrite strftime_local_format. repeat rewrite append_length, length_digits.
  reflexivity.
Qed.

Lemma append_same_length_inj a a' b b' :
  String.length a = String.length a' ->
  a +:+ b = a' +:+ b' -> a = a' /\ b = b'.
Proof.
  revert a'. induction a as [|c a IH]; intros [|c' a'] Hlen; try discriminate.
  - now intros.
  - rewrite !append_cons. intros [= -> H]. injection Hlen as Hlen.
    destruct (IH a' Hlen H) as [-> ->]. now split.
Qed.

Lemma append_inj_r s t u : s +:+ u = t +:+ u -> s = t.
Proof.
  intros H. apply (append_same_length_inj s t u u); [|exact H].
  apply (f_equal String.length) in H. rewrite !append_length in H. lia.
Qed.

Lemma length_digits_stamp_utc_inj dt dt' s s' :
  strftime utc_format dt +:+ "_" +:+ s +:+ ".log" =
  strftime utc_format dt' +:+ "_" +:+ s' +:+ ".log" ->
  strftime utc_format dt = strftime utc_format dt' /\ s = s'.
Proof.
  intros H. apply append_same_length_inj in H as [Hts H];
    [|now rewrite !length_strftime_utc].
  split; [exact Hts|]. injection H as H. exact (append_inj_r s s' ".log" H).
Qed.

Lemma logpatch_log_file_inj recipe dt dt' s s' :
  logpatch_log_file recipe dt s = logpatch_log_file recipe dt' s' ->
  strftime utc_format dt = strftime utc_format dt' /\ s = s'.
Proof.
  rewrite !logpatch_log_file_inside. intros H.
  apply String.app_inj in H. apply String.app_inj in H.
  now apply length_digits_stamp_utc_inj.
Qed.

Lemma pkgptch_log_file_inj dt dt' s s' :
  pkgptch_log_file dt s = pkgptch_log_file dt' s' ->
  strftime local_format dt = strftime local_format dt' /\ s = s'.
Proof.
  unfold pkgptch_log_file. intros H.
  apply append_same_length_inj in H as [Hts H];
    [|now rewrite !length_strftime_local].
  split; [exact Hts|]. injection H as H. exact (append_inj_r s s' ".log" H).
Qed.







(** ** Zero-padded decimal numbers *)

Lemma N_of_ascii_digit n : N_of_ascii (digit n) = (48 + n mod 10)%N.
Proof.
  unfold digit. apply N_ascii_embedding.
  pose proof (N.mod_lt n 10 ltac:(discriminate)). lia.
Qed.

Lemma all_digits_app s t : all_digits (s +:+ t) = all_digits s && all_digits t.
Proof.
  induction s as [|c s IH]; [reflexivity|].
  rewrite append_cons. simpl. rewrite IH. now rewrite andb_assoc.
Qed.

Lemma all_digits_digits width n : all_digits (digits width n) = true.
Proof.
  revert n. induction width as [|width IH]; intros n; [reflexivity|].
  simpl digits. rewrite all_digits_app, IH. simpl.
  rewrite N_of_ascii_digit.
  pose proof (N.mod_lt n 10 ltac:(discriminate)) as Hlt.
  generalize dependent (n mod 10)%N. intros r Hlt.
  rewrite andb_true_r. apply andb_true_intro. split; apply N.leb_le; lia.
Qed.

Lemma compare_app_same_length a a' b b' :
  String.length a = String.length a' ->
  String.compare (a +:+ b) (a' +:+ b') =
  lex (String.compare a a') (String.compare b b').
Proof.
  revert a'. induction a as [|c a IH]; intros [|c' a'] Hlen;
    try discriminate; [reflexivity|].
  rewrite !append_cons. simpl. destruct (Ascii.compare c c'); try reflexivity.
  apply IH. now injection Hlen.
Qed.

Lemma compare_tens (a b : N) :
  N.compare a b = lex (N.compare (a / 10) (b / 10)) (N.compare (a mod 10) (b mod 10)).
Proof.
  pose proof (N.div_mod a 10 ltac:(discriminate)) as Ha.
  pose proof (N.div_mod b 10 ltac:(discriminate)) as Hb.
  pose proof (N.mod_lt a 10 ltac:(discriminate)) as Hma.
  pose proof (N.mod_lt b 10 ltac:(discriminate)) as Hmb.
  remember (a / 10)%N as qa eqn:Eqa. remember (b / 10)%N as qb eqn:Eqb.
  remember (a mod 10)%N as ra eqn:Era. remember (b mod 10)%N as rb eqn:Erb.
  clear Eqa Eqb Era Erb. subst a b.
  destruct (N.compare_spec qa qb) as [->|H|H]; simpl.
  - destruct (N.compare_spec ra rb) as [->|H|H].
    + apply N.compare_refl.
    + apply N.compare_lt_iff. lia.
    + apply N.compare_gt_iff. lia.
  - apply N.compare_lt_iff. lia.
  - apply N.compare_gt_iff. lia.
Qed.

Lemma compare_add_l (k x y : N) : N.compare (k + x) (k + y) = N.compare x y.
Proof.
  destruct (N.compare_spec x y) as [->|H|H].
  - apply N.compare_refl.
  - apply N.compare_lt_iff. lia.
  - apply N.compare_gt_iff. lia.
Qed.

Lemma compare_digits width a b :
  (a < 10 ^ N.of_nat width)%N -> (b < 10 ^ N.of_nat width)%N ->
  String.compare (digits width a) (digits width b) = N.compare a b.
Proof.
  revert a b. induction width as [|width IH]; intros a b Ha Hb.
  - simpl in *. assert (a = 0%N) as -> by lia. assert (b = 0%N) as -> by lia.
    reflexivity.
  - rewrite Nat2N.inj_succ, N.pow_succ_r' in Ha, Hb.
    simpl digits. rewrite compare_app_same_length by (now rewrite !length_digits).
    rewrite IH by (apply N.Div0.div_lt_upper_bound; lia).
    rewrite (compare_tens a b). f_equal.
    simpl. unfold Ascii.compare. rewrite !N_of_ascii_digit.
    rewrite compare_add_l. now destruct (N.compare (a mod 10) (b mod 10)).
Qed.

Lemma compare_literal s a b :
  String.compare (s +:+ a) (s +:+ b) = String.compare a b.
Proof.
  induction s as [|c s IH]; [reflexivity|].
  rewrite !append_cons. simpl. unfold Ascii.compare. now rewrite N.compare_refl.
Qed.

(** File names sort like the dates in them. *)
Lemma compare_strftime_utc a b :
  valid_datetime a -> valid_datetime b ->
  String.compare (strftime utc_format a) (strftime utc_format b) =
  datetime_compare a b.
Proof.
  intros (Hy & Hm & Hd & Hh & Hmi & Hs & Hu) (Hy' & Hm' & Hd' & Hh' & Hmi' & Hs' & Hu').
  rewrite !strftime_utc_format. unfold datetime_compare.
  repeat (first
    [ rewrite compare_app_same_length by (now rewrite !length_digits);
      rewrite compare_digits by (simpl; lia)
    | rewrite compare_literal ]).
  change (String.compare "Z" "Z") with Eq.
  now destruct (N.compare (microsecond a) (microsecond b)).
Qed.

Lemma datetime_compare_eq a b : datetime_compare a b = Eq -> a = b.
Proof.
  destruct a, b. unfold datetime_compare, lex. simpl.
  repeat match goal with
         | |- context [N.compare ?x ?y] =>
             destruct (N.compare_spec x y); try discriminate; subst
         end.
  reflexivity.
Qed.

Lemma compare_refl s : String.compare s s = Eq.
Proof.
  induction s as [|c s IH]; [reflexivity|].
  simpl. unfold Ascii.compare. now rewrite N.compare_refl.
Qed.

(** C6, as the two programs have it.  A logged step reads the clock itself and
    its very next action is to open the file named after that reading; the
    steps of a recipe are such steps, each with a reading of its own.
    [logpatch.py] reads the UTC clock and renders it as
    [YYYYMMDDThhmmss.ffffffZ], 23 characters with decimal digits in the
    numeric fields, whose order as strings is the order of the dates, so that dates that differ, be it by a microsecond,
    give different names.  [pkgptch.py] renders its reading as
    [YYYYMMDDThhmmssZ], 16 characters, the same for all dates within one
    second. *)
Theorem logged_step_timestamp :
  (forall (recipe : recipe_t) (cmd suffix : string) (w : world),
      let w' := snd (logpatch_logged_step recipe cmd suffix w) in
      let dt := utc_reading w 0 in
      let p := path_join (log_directory recipe)
                 (strftime "%Y%m%dT%H%M%S.%fZ" dt +:+ "_" +:+ suffix +:+ ".log") in
      ticks w' = S (ticks w) /\
      exists rest,
        trace w' =
        trace w ++ EvClock UTC dt
                :: (if can_open (env w) p then EvOpen p ModeAppend
                    else EvOpenFailed p ModeAppend)
                :: rest) /\
  (forall (cmd suffix : string) (w : world),
      let w' := snd (pkgptch_logged_step cmd suffix w) in
      let dt := local_reading w 0 in
      let p := strftime "%Y%m%dT%H%M%SZ" dt +:+ "_" +:+ suffix +:+ ".log" in
      ticks w' = S (ticks w) /\
      exists rest,
        trace w' =
        trace w ++ EvClock Local dt
                :: (if can_open (env w) p then EvOpen p ModeWrite
                    else EvOpenFailed p ModeWrite)
                :: rest) /\
  (forall recipe : recipe_t,
      LogPatch.exec_recipe recipe =
      (log INFO (ExecutingRecipe (name recipe)) ;;
       (if log_package_version_cmd recipe
        then logpatch_logged_step recipe (package_version_cmd recipe)
                                  "package_versions_pre-patch"
        else ret tt) ;;
       (if log_patch_cmd recipe
        then logpatch_logged_step recipe (patch_cmd recipe) (name recipe)
        else LogPatch.execute (patch_cmd recipe) "") ;;
       (if log_package_version_cmd recipe
        then logpatch_logged_step recipe (package_version_cmd recipe)
                                  "package_versions_post-patch"
        else ret tt)) /\
      PkgPtch.exec_recipe recipe =
      (log INFO (ExecutingRecipe (name recipe)) ;;
       (if log_package_version_cmd recipe
        then pkgptch_logged_step (package_version_cmd recipe)
                                 "package_versions_pre-patch"
        else ret tt) ;;
       (if log_patch_cmd recipe
        then pkgptch_logged_step (patch_cmd recipe) (name recipe)
        else PkgPtch.execute (patch_cmd recipe) "") ;;
       (if log_package_version_cmd recipe
        then pkgptch_logged_step (package_version_cmd recipe)
                                 "package_versions_post-patch"
        else ret tt))) /\
  (forall dt : datetime,
      strftime "%Y%m%dT%H%M%S.%fZ" dt =
        digits 4 (year dt) +:+ digits 2 (month dt) +:+ digits 2 (day dt) +:+ "T"
        +:+ digits 2 (hour dt) +:+ digits 2 (minute dt) +:+ digits 2 (second dt)
        +:+ "." +:+ digits 6 (microsecond dt) +:+ "Z" /\
      String.length (strftime "%Y%m%dT%H%M%S.%fZ" dt) = 23 /\
      strftime "%Y%m%dT%H%M%SZ" dt =
        digits 4 (year dt) +:+ digits 2 (month dt) +:+ digits 2 (day dt) +:+ "T"
        +:+ digits 2 (hour dt) +:+ digits 2 (minute dt) +:+ digits 2 (second dt)
        +:+ "Z" /\
      String.length (strftime "%Y%m%dT%H%M%SZ" dt) = 16) /\
  (forall (width : nat) (n : N),
      String.length (digits width n) = width /\
      all_digits (digits width n) = true) /\
  (forall a b : datetime,
      valid_datetime a -> valid_datetime b ->
      String.compare (strftime "%Y%m%dT%H%M%S.%fZ" a) (strftime "%Y%m%dT%H%M%S.%fZ" b) =
        datetime_compare a b /\
      (strftime "%Y%m%dT%H%M%S.%fZ" a = strftime "%Y%m%dT%H%M%S.%fZ" b -> a = b)) /\
  (forall a b : datetime,
      same_second a b ->
      strftime "%Y%m%dT%H%M%SZ" a = strftime "%Y%m%dT%H%M%SZ" b).
Proof.
  split; [|split; [|split; [|split; [|split; [|split]]]]].
  - intros recipe cmd suffix w w' dt p. subst w' dt p.
    rewrite logpatch_logged_step_executed. unfold executed. world_fields.
    destruct (run_process (env w) (spawned w) cmd) as [out rc].
    rewrite logpatch_log_file_nonempty. unfold logpatch_log_file, utc_format.
    destruct (can_open (env w) _); cbn [snd ticks trace emit set_ticks].
    + split; [reflexivity|]. eexists.
      rewrite <- app_assoc. reflexivity.
    + split; [reflexivity|]. exists []. now rewrite <- app_assoc.
  - intros cmd suffix w w' dt p. subst w' dt p.
    rewrite pkgptch_logged_step_executed. unfold executed. world_fields.
    destruct (run_process (env w) (spawned w) cmd) as [out rc].
    rewrite pkgptch_log_file_nonempty. unfold pkgptch_log_file, local_format.
    destruct (can_open (env w) _); cbn [snd ticks trace emit set_ticks].
    + split; [reflexivity|]. eexists.
      rewrite <- app_assoc. reflexivity.
    + split; [reflexivity|]. exists []. now rewrite <- app_assoc.
  - intros recipe. split; reflexivity.
  - intros dt. split; [reflexivity|]. split; [apply length_strftime_utc|].
    split; [reflexivity|apply length_strftime_local].
  - intros width n. split; [apply length_digits|apply all_digits_digits].
  - intros a b Ha Hb. split; [now apply compare_strftime_utc|].
    intros Heq. apply datetime_compare_eq.
    rewrite <- (compare_strftime_utc a b Ha Hb).
    change "%Y%m%dT%H%M%S.%fZ" with utc_format in Heq.
    rewrite Heq. apply compare_refl.
  - intros a b (Hy & Hm & Hd & Hh & Hmi & Hs).
    change "%Y%m%dT%H%M%SZ" with local_format.
    rewrite !strftime_local_format. now rewrite Hy, Hm, Hd, Hh, Hmi, Hs.
Qed.

Lemma logged_step_timestamp_witness :
  let a := Datetime 2022 12 1 10 30 0 1 in
  let b := Datetime 2022 12 1 10 30 0 2 in
  strftime "%Y%m%dT%H%M%S.%fZ" a = "20221201T103000.000001Z" /\
  String.compare (strftime "%Y%m%dT%H%M%S.%fZ" a) (strftime "%Y%m%dT%H%M%S.%fZ" b) = Lt /\
  strftime "%Y%m%dT%H%M%SZ" a = strftime "%Y%m%dT%H%M%SZ" b.
Proof.
  destruct logged_step_timestamp as (_ & _ & _ & _ & _ & Horder & Hsecond).
  intros a b. split; [reflexivity|]. split.
  - destruct (Horder a b) as [H _].
    + unfold valid_datetime. simpl. lia.
    + unfold valid_datetime. simpl. lia.
    + rewrite H. reflexivity.
  - apply Hsecond. repeat split.
Defined.

(** The names that [pkgptch.py] gives its log files carry the local time of
    day and no microseconds: two dates within one second give one name. *)
Lemma pkgptch_timestamp_local_whole_seconds :
  let a := Datetime 2022 12 1 10 30 0 1 in
  let b := Datetime 2022 12 1 10 30 0 999999 in
  (valid_datetime a /\ valid_datetime b /\ a <> b /\
   strftime "%Y%m%dT%H%M%SZ" a = strftime "%Y%m%dT%H%M%SZ" b) /\
  clock (env demo_world) 0 = Datetime 2022 12 1 10 30 0 123456 /\
  opens (trace (snd (PkgPtch.exec_recipe demo_recipe demo_world))) =
    ["20221201T233000Z_package_versions_pre-patch.log";
     "20221201T233001Z_demo.log";
     "20221201T233002Z_package_versions_post-patch.log"].
Proof.
  intros a b. split; [|split; [reflexivity|vm_compute; reflexivity]].
  repeat split; try (simpl; lia). discriminate.
Qed.

(** ** The script *)

Lemma validate_schema_conf_valid conf w :
  LogPatch.errors_of conf = [] ->
  LogPatch.validate_schema_conf conf w = (Ok 0%Z, w).
Proof. unfold LogPatch.validate_schema_conf. now intros ->. Qed.

(** What the two scripts do once the document is loaded (and, in
    [logpatch.py], validated). *)
Lemma logpatch_main_run config_path selected_recipe conf w :
  config_at (env w) config_path = Parsed conf ->
  LogPatch.errors_of conf = [] ->
  LogPatch.main config_path selected_recipe w =
  match with_selected conf selected_recipe LogPatch.exec_recipe w with
  | (Ok _, w1) => (Raise (SystemExit 0), w1)
  | (Raise (CalledProcessError rc cmd), w1) =>
      (Raise (SystemExit 0), emit (EvLog ERROR (CaughtCalledProcessError rc cmd)) w1)
  | (Raise e, w1) => (Raise e, w1)
  end.
Proof.
  intros Hconf Hvalid. unfold LogPatch.main. rewrite Hconf.
  erewrite bind_ok by (now apply validate_schema_conf_valid).
  cbn [Z.eqb negb]. unfold bind, try_except.
  destruct (with_selected conf selected_recipe LogPatch.exec_recipe w)
    as [[[]|[]] w1]; reflexivity.
Qed.

Lemma pkgptch_main_run config_path selected_recipe conf w :
  config_at (env w) config_path = Parsed conf ->
  PkgPtch.main config_path selected_recipe w =
  match (recipe <- subscript conf selected_recipe ;;
         PkgPtch.exec_recipe_entry recipe) w with
  | (Ok _, w1) => (Raise (SystemExit 0), w1)
  | (Raise (CalledProcessError rc cmd), w1) =>
      (Raise (SystemExit 0), emit (EvLog ERROR (CaughtCalledProcessError rc cmd)) w1)
  | (Raise e, w1) => (Raise e, w1)
  end.
Proof.
  intros Hconf. unfold PkgPtch.main. rewrite Hconf.
  unfold bind at 1. unfold try_except.
  destruct ((recipe <- subscript conf selected_recipe ;;
             PkgPtch.exec_recipe_entry recipe) w)
    as [[[]|[]] w1]; reflexivity.
Qed.

(** Reading the fields of an entry that holds a recipe. *)
Lemma get_str_subscript items k s w :
  get_str items k = Some s ->
  (v <- subscript (YDict items) k ;; as_str v) w = (Ok s, w).
Proof.
  unfold get_str, subscript, bind.
  destruct (dict_get items (KStr k)) as [[]|]; try discriminate.
  now intros [= ->].
Qed.

Lemma get_bool_subscript items k b w :
  get_bool items k = Some b ->
  (v <- subscript (YDict items) k ;; truth v) w = (Ok b, w).
Proof.
  unfold get_bool, subscript, bind.
  destruct (dict_get items (KStr k)) as [[]|]; try discriminate.
  now intros [= ->].
Qed.

Lemma recipe_of_fields v recipe :
  recipe_of v = Some recipe ->
  exists items,
    v = YDict items /\
    get_str items "name" = Some (name recipe) /\
    get_bool items "log_package_version_cmd" = Some (log_package_version_cmd recipe) /\
    get_bool items "log_patch_cmd" = Some (log_patch_cmd recipe) /\
    get_str items "patch_cmd" = Some (patch_cmd recipe) /\
    get_str items "package_version_cmd" = Some (package_version_cmd recipe).
Proof.
  destruct v as [| | | | | |items]; try discriminate.
  unfold recipe_of. intros H. exists items. split; [reflexivity|].
  destruct (get_str items "name") as [n|]; [|discriminate].
  destruct (get_str items "log_directory") as [d|]; [|discriminate].
  destruct (get_bool items "log_package_version_cmd") as [lv|]; [|discriminate].
  destruct (get_bool items "log_patch_cmd") as [lp|]; [|discriminate].
  destruct (get_str items "patch_cmd") as [pc|]; [|discriminate].
  destruct (get_str items "package_version_cmd") as [vc|]; [|discriminate].
  simpl in H. injection H as <-. repeat split.
Qed.

Lemma bind_cong {A B} (m m' : M A) (k k' : A -> M B) w :
  m w = m' w -> (forall a w', k a w' = k' a w') -> bind m k w = bind m' k' w.
Proof.
  intros Hm Hk. unfold bind. rewrite Hm.
  destruct (m' w) as [[a|e] w']; [apply Hk|reflexivity].
Qed.

Lemma bind_pure {A B} (m : M A) (k : A -> M B) a w :
  m w = (Ok a, w) -> bind m k w = k a w.
Proof. intros H. unfold bind. now rewrite H. Qed.

(** On an entry that holds the five fields that [pkgptch.py] reads, with
    their types, the field-by-field reading is the run of the recipe made of
    them, whatever its [log_directory]. *)
Lemma exec_recipe_entry_fields items recipe w :
  get_str items "name" = Some (name recipe) ->
  get_bool items "log_package_version_cmd" = Some (log_package_version_cmd recipe) ->
  get_bool items "log_patch_cmd" = Some (log_patch_cmd recipe) ->
  get_str items "patch_cmd" = Some (patch_cmd recipe) ->
  get_str items "package_version_cmd" = Some (package_version_cmd recipe) ->
  PkgPtch.exec_recipe_entry (YDict items) w = PkgPtch.exec_recipe recipe w.
Proof.
  intros Hn Hlv Hlp Hpc Hvc.
  unfold PkgPtch.exec_recipe_entry, PkgPtch.exec_recipe. cbv zeta.
  rewrite (bind_pure _ _ _ _ (get_str_subscript _ _ _ _ Hn)).
  apply bind_cong; [reflexivity|intros [] w0].
  rewrite (bind_pure _ _ _ _ (get_bool_subscript _ _ _ _ Hlv)).
  apply bind_cong.
  { destruct (log_package_version_cmd recipe); [|reflexivity].
    apply bind_cong; [reflexivity|intros dt w'].
    now rewrite (bind_pure _ _ _ _ (get_str_subscript _ _ _ _ Hvc)). }
  intros [] w1.
  rewrite (bind_pure _ _ _ _ (get_bool_subscript _ _ _ _ Hlp)).
  apply bind_cong.
  { destruct (log_patch_cmd recipe).
    - apply bind_cong; [reflexivity|intros dt w'].
      rewrite (bind_pure _ _ _ _ (get_str_subscript _ _ _ _ Hpc)).
      now rewrite (bind_pure _ _ _ _ (get_str_subscript _ _ _ _ Hn)).
    - now rewrite (bind_pure _ _ _ _ (get_str_subscript _ _ _ _ Hpc)). }
  intros [] w2.
  rewrite (bind_pure _ _ _ _ (get_bool_subscript _ _ _ _ Hlv)).
  destruct (log_package_version_cmd recipe); [|reflexivity].
  apply bind_cong; [reflexivity|intros dt w'].
  now rewrite (bind_pure _ _ _ _ (get_str_subscript _ _ _ _ Hvc)).
Qed.

Lemma exec_recipe_entry_recipe v recipe w :
  recipe_of v = Some recipe ->
  PkgPtch.exec_recipe_entry v w = PkgPtch.exec_recipe recipe w.
Proof.
  intros (items & -> & Hn & Hlv & Hlp & Hpc & Hvc)%recipe_of_fields.
  now apply exec_recipe_entry_fields.
Qed.

(** The run of the selected entry in [pkgptch.py], when the entry holds a
    recipe. *)
Lemma pkgptch_selected_run conf selected_recipe w r w1 :
  with_selected conf selected_recipe PkgPtch.exec_recipe w = (r, w1) ->
  r <> Raise TypeError ->
  (recipe <- subscript conf selected_recipe ;;
   PkgPtch.exec_recipe_entry recipe) w = (r, w1).
Proof.
  intros Hrun Hr. unfold with_selected in Hrun. unfold bind, subscript.
  destruct conf as [| | | | | |items];
    try (injection Hrun as <- <-; now destruct Hr).
  destruct (dict_get items (KStr selected_recipe)) as [v|]; [|exact Hrun].
  destruct (recipe_of v) as [recipe|] eqn:Hrecipe.
  - unfold ret. rewrite <- Hrun. now apply exec_recipe_entry_recipe.
  - injection Hrun as <- <-. now destruct Hr.
Qed.

(** C8: in either program.  A call of [execute] whose process returns a
    non-zero code raises [CalledProcessError] with that code and the command
    only when the whole output has reached the console and, with a sink, the
    file, and the file has been closed.  When the run of the selected recipe
    ends with such an error, the script catches it, logs it with its code and
    command, and goes on to its regular [exit(0)]; apart from that log record
    the world is as the failed command left it. *)
Theorem failed_command_is_drained_then_reported :
  (forall (cmd log_file : string) (w : world) (out : string) (rc : Z),
      run_process (env w) (spawned w) cmd = (out, rc) ->
      rc <> 0%Z ->
      log_file = "" \/ can_open (env w) log_file = true ->
      (let res := LogPatch.execute cmd log_file w in
       fst res = Raise (CalledProcessError rc cmd) /\
       console (snd res) = console w +:+ out /\
       (log_file <> "" ->
        files (snd res) !! log_file = Some (default "" (files w !! log_file) +:+ out)) /\
       handles (snd res) = handles w /\
       yields (trace (snd res)) = yields (trace w) ++ iter_readline out) /\
      (let res := PkgPtch.execute cmd log_file w in
       fst res = Raise (CalledProcessError rc cmd) /\
       console (snd res) = console w +:+ out /\
       (log_file <> "" -> files (snd res) !! log_file = Some out) /\
       handles (snd res) = handles w /\
       yields (trace (snd res)) = yields (trace w) ++ iter_readline out)) /\
  (forall (config_path selected_recipe : string) (conf : yval) (w w1 : world)
          (rc : Z) (cmd : string),
      config_at (env w) config_path = Parsed conf ->
      (LogPatch.errors_of conf = [] ->
       with_selected conf selected_recipe LogPatch.exec_recipe w =
         (Raise (CalledProcessError rc cmd), w1) ->
       LogPatch.main config_path selected_recipe w =
         (Raise (SystemExit 0),
          emit (EvLog ERROR (CaughtCalledProcessError rc cmd)) w1)) /\
      (with_selected conf selected_recipe PkgPtch.exec_recipe w =
         (Raise (CalledProcessError rc cmd), w1) ->
       PkgPtch.main config_path selected_recipe w =
         (Raise (SystemExit 0),
          emit (EvLog ERROR (CaughtCalledProcessError rc cmd)) w1))).
Proof.
  split.
  - intros cmd log_file w out rc Erun Hrc Hsink. apply Z.eqb_neq in Hrc.
    rewrite logpatch_execute_executed, pkgptch_execute_executed.
    unfold executed. rewrite Erun, status_of_eq, Hrc.
    destruct (String.eqb log_file "") eqn:Elf.
    + apply String.eqb_eq in Elf.
      cbn [fst snd console files handles trace].
      rewrite !yields_app, yields_line_events. simpl. rewrite app_nil_r.
      repeat split; try reflexivity; intros Hne; now destruct Hne.
    + destruct Hsink as [-> | ->]; [discriminate|].
      cbn [fst snd console files handles trace].
      rewrite !yields_app, yields_line_events, !lookup_insert_eq.
      simpl. rewrite app_nil_r.
      repeat split; reflexivity.
  - intros config_path selected_recipe conf w w1 rc cmd Hconf. split.
    + intros Hvalid Hrun.
      rewrite (logpatch_main_run _ _ _ _ Hconf Hvalid), Hrun. reflexivity.
    + intros Hrun. apply pkgptch_selected_run in Hrun; [|discriminate].
      rewrite (pkgptch_main_run _ _ _ _ Hconf), Hrun. reflexivity.
Qed.

Lemma failed_command_is_drained_then_reported_witness :
  fst (LogPatch.main "logpatch.yaml" "broken" demo_world) = Raise (SystemExit 0) /\
  console (snd (LogPatch.main "logpatch.yaml" "broken" demo_world)) =
    "v1" +:+ nl +:+ "sh: 1: apt-get upgrade: not found" +:+ nl +:+ "bye" /\
  last (trace (snd (LogPatch.main "logpatch.yaml" "broken" demo_world))) =
    Some (EvLog ERROR (CaughtCalledProcessError 127 "apt-get upgrade")).
Proof.
  destruct failed_command_is_drained_then_reported as [_ H].
  destruct (H "logpatch.yaml" "broken"
              (YDict
                 [(KStr "demo",
                   YDict [(KStr "name", YStr "demo");
                          (KStr "log_directory", YStr "/tmp/logs");
                          (KStr "log_package_version_cmd", YBool true);
                          (KStr "log_patch_cmd", YBool true);
                          (KStr "patch_cmd", YStr "echo patched");
                          (KStr "package_version_cmd", YStr "echo v1")]);
                  (KStr "broken",
                   YDict [(KStr "name", YStr "broken");
                          (KStr "log_directory", YStr "/tmp/logs");
                          (KStr "log_package_version_cmd", YBool true);
                          (KStr "log_patch_cmd", YBool false);
                          (KStr "patch_cmd", YStr "apt-get upgrade");
                          (KStr "package_version_cmd", YStr "echo v1")])])
              demo_world
              (snd (LogPatch.exec_recipe broken_recipe demo_world))
              127%Z "apt-get upgrade" eq_refl) as [Hmain _].
  rewrite Hmain; [|vm_compute; reflexivity|vm_compute; reflexivity].
  vm_compute. repeat split.
Defined.

(** C9: in either program, once the document is loaded (and, in
    [logpatch.py], found valid): whether the run of the selected recipe ends
    normally or with [CalledProcessError], the script ends with [exit(0)], so
    its exit status is 0 in both cases; in the second case the error has been
    logged. *)
Theorem exit_status_is_zero_after_command_failure :
  forall (config_path selected_recipe : string) (conf : yval) (w : world),
    config_at (env w) config_path = Parsed conf ->
    (LogPatch.errors_of conf = [] ->
     forall (r : outcome unit) (w1 : world),
       with_selected conf selected_recipe LogPatch.exec_recipe w = (r, w1) ->
       (r = Ok tt ->
        LogPatch.main config_path selected_recipe w = (Raise (SystemExit 0), w1)) /\
       (forall rc cmd,
           r = Raise (CalledProcessError rc cmd) ->
           exit_status (fst (LogPatch.main config_path selected_recipe w)) = 0%Z /\
           trace (snd (LogPatch.main config_path selected_recipe w)) =
             trace w1 ++ [EvLog ERROR (CaughtCalledProcessError rc cmd)])) /\
    (forall (r : outcome unit) (w1 : world),
        with_selected conf selected_recipe PkgPtch.exec_recipe w = (r, w1) ->
        (r = Ok tt ->
         PkgPtch.main config_path selected_recipe w = (Raise (SystemExit 0), w1)) /\
        (forall rc cmd,
            r = Raise (CalledProcessError rc cmd) ->
            exit_status (fst (PkgPtch.main config_path selected_recipe w)) = 0%Z /\
            trace (snd (PkgPtch.main config_path selected_recipe w)) =
              trace w1 ++ [EvLog ERROR (CaughtCalledProcessError rc cmd)])).
Proof.
  intros config_path selected_recipe conf w Hconf. split.
  - intros Hvalid r w1 Hrun.
    rewrite (logpatch_main_run _ _ _ _ Hconf Hvalid), Hrun.
    split; [now intros ->|]. intros rc cmd ->. split; reflexivity.
  - intros r w1 Hrun. rewrite (pkgptch_main_run _ _ _ _ Hconf).
    split.
    + intros ->. apply pkgptch_selected_run in Hrun; [|discriminate].
      now rewrite Hrun.
    + intros rc cmd ->. apply pkgptch_selected_run in Hrun; [|discriminate].
      rewrite Hrun. split; reflexivity.
Qed.

Lemma exit_status_is_zero_after_command_failure_witness :
  exit_status (fst (PkgPtch.main "logpatch.yaml" "broken" demo_world)) = 0%Z /\
  exit_status (fst (PkgPtch.main "logpatch.yaml" "demo" demo_world)) = 0%Z /\
  fst (PkgPtch.exec_recipe broken_recipe demo_world) =
    Raise (CalledProcessError 127 "apt-get upgrade").
Proof.
  split; [|split; [|vm_compute; reflexivity]].
  - destruct (exit_status_is_zero_after_command_failure
                "logpatch.yaml" "broken" _ demo_world eq_refl) as [_ H].
    destruct (H _ _ (surjective_pairing _)) as [_ Hfail].
    destruct (Hfail 127%Z "apt-get upgrade") as [Hstatus _];
      [vm_compute; reflexivity|exact Hstatus].
  - destruct (exit_status_is_zero_after_command_failure
                "logpatch.yaml" "demo" _ demo_world eq_refl) as [_ H].
    destruct (H _ _ (surjective_pairing _)) as [Hok _].
    rewrite Hok; [reflexivity|vm_compute; reflexivity].
Defined.

(** ** The schema validator *)

Lemma leaf_errors t path v :
  iter_errors (Schema (Some t) [] [] None) path v =
  if is_type v t then [] else [ValidationError path (NotOfType t)].
Proof. destruct t, v; reflexivity. Qed.

Lemma recipe_schema_errors path v :
  iter_errors LogPatch.recipe_schema path v =
  match v with
  | YDict items =>
      flat_map (field_errors path items) required_fields
      ++ flat_map (missing_errors path items) required_fields
  | _ => [ValidationError path (NotOfType JObject)]
  end.
Proof.
  destruct v as [| | | | | |items]; try reflexivity.
  unfold LogPatch.recipe_schema, required_fields.
  cbn [iter_errors type_errors is_type required_errors flat_map fst snd].
  unfold field_errors, missing_errors, dict_has. cbn [fst snd].
  unfold LogPatch.string_schema, LogPatch.boolean_schema.
  repeat match goal with
         | |- context [dict_get items ?k] => destruct (dict_get items k)
         end;
    rewrite ?leaf_errors, ?app_nil_r; reflexivity.
Qed.

Lemma flat_map_nil_iff {A B} (f : A -> list B) (l : list A) :
  flat_map f l = [] <-> forall x, In x l -> f x = [].
Proof.
  induction l as [|a l IH]; simpl.
  - split; [intros _ x []|reflexivity].
  - rewrite app_nil, IH. split.
    + intros [Ha Hl] x [<-|Hx]; auto.
    + intros H. split; [apply H; now left|]. intros x Hx. apply H. now right.
Qed.

Lemma field_checks path items fields :
  flat_map (field_errors path items) fields
  ++ flat_map (missing_errors path items) fields = []
  <-> forallb (has_field items) fields = true.
Proof.
  rewrite app_nil, !flat_map_nil_iff, forallb_forall.
  unfold field_errors, missing_errors, has_field, dict_has. split.
  - intros [Hf Hm] f Hin. specialize (Hf f Hin). specialize (Hm f Hin).
    destruct (dict_get items (KStr (fst f))) as [v|]; [|discriminate].
    now destruct (is_type v (snd f)).
  - intros H. split; intros f Hin; specialize (H f Hin);
      destruct (dict_get items (KStr (fst f))) as [v|]; try discriminate;
      try reflexivity.
    now rewrite H.
Qed.

Lemma entry_errors_nil path v :
  iter_errors LogPatch.recipe_schema path v = [] <-> entry_ok v = true.
Proof.
  rewrite recipe_schema_errors.
  destruct v; try (split; discriminate). apply field_checks.
Qed.

(** Every error of an entry carries the path of the entry. *)
Lemma entry_errors_path path v e :
  In e (iter_errors LogPatch.recipe_schema path v) ->
  exists rest, err_path e = path ++ rest.
Proof.
  rewrite recipe_schema_errors.
  assert (forall items,
             In e (flat_map (field_errors path items) required_fields
                   ++ flat_map (missing_errors path items) required_fields) ->
             exists rest, err_path e = path ++ rest) as Hdict.
  { intros items [H|H]%in_app_or; apply in_flat_map in H as (f & _ & H).
    - unfold field_errors in H.
      destruct (dict_get items (KStr (fst f))) as [x|]; [|destruct H].
      destruct (is_type x (snd f)); [destruct H|].
      destruct H as [<-|[]]. eauto.
    - unfold missing_errors in H.
      destruct (dict_has items (KStr (fst f))); [destruct H|].
      destruct H as [<-|[]]. exists []. simpl. now rewrite app_nil_r. }
  destruct v; try (intros [<-|[]]; exists []; simpl; now rewrite app_nil_r).
  apply Hdict.
Qed.

Lemma conf_schema_errors conf :
  LogPatch.errors_of conf =
  match conf with
  | YDict items =>
      flat_map (fun k => match dict_get items k with
                         | Some v => iter_errors LogPatch.recipe_schema [k] v
                         | None => []
                         end) (map fst items)
  | _ => [ValidationError [] (NotOfType JObject)]
  end.
Proof.
  destruct conf as [| | | | | |items]; try reflexivity.
  unfold LogPatch.errors_of, LogPatch.conf_schema.
  cbn [iter_errors type_errors is_type required_errors flat_map app].
  apply flat_map_ext. intros k. now destruct k.
Qed.

Lemma document_errors_nil conf :
  LogPatch.errors_of conf = [] <-> document_ok conf = true.
Proof.
  rewrite conf_schema_errors.
  destruct conf as [| | | | | |items]; try (split; discriminate).
  unfold document_ok. rewrite flat_map_nil_iff, forallb_forall.
  split; intros H k Hk; specialize (H k Hk);
    destruct (dict_get items k) as [v|]; try reflexivity.
  - now apply (entry_errors_nil [k] v).
  - now apply (entry_errors_nil [k] v).
Qed.

Lemma log_errors_loop errors w :
  for_each errors (fun error => log ERROR (SyntaxError error)) w =
  (Ok tt,
   World (env w) (console w) (files w) (handles w) (spawned w) (ticks w)
         (trace w ++ map (fun error => EvLog ERROR (SyntaxError error)) errors)).
Proof.
  revert w. induction errors as [|e errors IH]; intros w.
  - simpl. unfold ret. destruct w; simpl. now rewrite app_nil_r.
  - simpl for_each. unfold bind, log, note. rewrite IH. simpl.
    now rewrite <- app_assoc.
Qed.

Lemma undeclared_lookup k x items f :
  undeclared k = true -> In f required_fields ->
  dict_get ((k, x) :: items) (KStr (fst f)) = dict_get items (KStr (fst f)).
Proof.
  unfold undeclared. rewrite forallb_forall. intros H Hin.
  specialize (H f Hin). apply negb_true_iff in H. cbn [dict_get]. now rewrite H.
Qed.

Lemma flat_map_ext_in {A B} (f g : A -> list B) (l : list A) :
  (forall x, In x l -> f x = g x) -> flat_map f l = flat_map g l.
Proof.
  induction l as [|a l IH]; intros H; [reflexivity|].
  simpl. rewrite (H a) by now left. rewrite IH; [reflexivity|].
  intros x Hx. apply H. now right.
Qed.

(** C3: [validate_schema_conf] on any deserialised document.  The list of
    validation errors is empty exactly when the document is a dictionary each
    of whose keys leads to a dictionary that has the six required properties,
    strings for [log_directory], [name], [patch_cmd], [package_version_cmd]
    and booleans for [log_package_version_cmd], [log_patch_cmd]; the function
    returns 0 in that case and 1 otherwise, after logging every error.  An
    entry that is not in order gives at least one error whose path starts
    with the key of that entry.  A property under any other key changes
    nothing in the errors of an entry. *)
Theorem validate_schema_conf_accepts_exactly_well_formed :
  forall conf : yval,
    (LogPatch.errors_of conf = [] <-> document_ok conf = true) /\
    (forall w : world,
        LogPatch.validate_schema_conf conf w =
        (Ok (if document_ok conf then 0%Z else 1%Z),
         World (env w) (console w) (files w) (handles w) (spawned w) (ticks w)
               (trace w ++ map (fun error => EvLog ERROR (SyntaxError error))
                               (LogPatch.errors_of conf)))) /\
    (forall items k v,
        conf = YDict items ->
        In k (map fst items) -> dict_get items k = Some v ->
        entry_ok v = false ->
        exists e rest, In e (LogPatch.errors_of conf) /\ err_path e = k :: rest) /\
    (forall path items k x,
        undeclared k = true ->
        iter_errors LogPatch.recipe_schema path (YDict ((k, x) :: items)) =
        iter_errors LogPatch.recipe_schema path (YDict items)).
Proof.
  intros conf. split; [apply document_errors_nil|]. split; [|split].
  - intros w. unfold LogPatch.validate_schema_conf.
    pose proof (document_errors_nil conf) as Hiff.
    destruct (LogPatch.errors_of conf) as [|e errors] eqn:E.
    + rewrite (proj1 Hiff eq_refl). simpl. unfold ret. destruct w; simpl.
      now rewrite app_nil_r.
    + destruct (document_ok conf); [discriminate (proj2 Hiff eq_refl)|].
      cbn [length Nat.eqb].
      erewrite bind_ok by apply log_errors_loop. reflexivity.
  - intros items k v -> Hk Hget Hbad.
    destruct (iter_errors LogPatch.recipe_schema [k] v) as [|e errors] eqn:E.
    + apply entry_errors_nil in E. congruence.
    + assert (In e (iter_errors LogPatch.recipe_schema [k] v)) as Hin
          by (rewrite E; now left).
      destruct (entry_errors_path _ _ _ Hin) as [rest Hrest].
      exists e, rest. split; [|exact Hrest].
      rewrite conf_schema_errors. apply in_flat_map. exists k.
      split; [exact Hk|]. now rewrite Hget.
  - intros path items k x Hk. rewrite !recipe_schema_errors. f_equal.
    + apply flat_map_ext_in. intros f Hf. unfold field_errors.
      now rewrite (undeclared_lookup _ _ _ _ Hk Hf).
    + apply flat_map_ext_in. intros f Hf. unfold missing_errors, dict_has.
      now rewrite (undeclared_lookup _ _ _ _ Hk Hf).
Qed.

Lemma validate_schema_conf_accepts_exactly_well_formed_witness :
  let bad := YDict [(KStr "name", YStr "bad"); (KStr "log_patch_cmd", YStr "yes")] in
  let conf := YDict [(KStr "bad", bad)] in
  entry_ok bad = false /\
  (exists e rest, In e (LogPatch.errors_of conf) /\ err_path e = KStr "bad" :: rest) /\
  fst (LogPatch.validate_schema_conf conf demo_world) = Ok 1%Z.
Proof.
  intros bad conf.
  destruct (validate_schema_conf_accepts_exactly_well_formed conf)
    as (_ & Hret & Hentry & _).
  split; [reflexivity|]. split.
  - apply (Hentry [(KStr "bad", bad)] (KStr "bad") bad eq_refl).
    + now left.
    + reflexivity.
    + reflexivity.
  - rewrite Hret. reflexivity.
Defined.

(** An entry in order can be read as a recipe, so the script never meets a
    missing or ill-typed field once the document is validated. *)
Lemma entry_ok_recipe_of v : entry_ok v = true -> is_Some (recipe_of v).
Proof.
  destruct v as [| | | | | |items]; try discriminate.
  unfold entry_ok, required_fields. cbn [forallb].
  rewrite !andb_true_iff. unfold has_field. cbn [fst snd].
  intros (H1 & H2 & H3 & H4 & H5 & H6 & _).
  unfold recipe_of, get_str, get_bool.
  destruct (dict_get items (KStr "log_directory")) as [[]|]; try discriminate.
  destruct (dict_get items (KStr "log_package_version_cmd")) as [[]|];
    try discriminate.
  destruct (dict_get items (KStr "log_patch_cmd")) as [[]|]; try discriminate.
  destruct (dict_get items (KStr "name")) as [[]|]; try discriminate.
  destruct (dict_get items (KStr "patch_cmd")) as [[]|]; try discriminate.
  destruct (dict_get items (KStr "package_version_cmd")) as [[]|];
    try discriminate.
  simpl. eauto.
Qed.

(** * Further facts about the two programs *)

(** ** Invariants pass through the control structures *)

Section Keeps.
Context (R : world -> world -> Prop) `{!PreOrder R}.

Lemma keeps_ret {A} (a : A) : keeps R (ret a).
Proof. intros w. reflexivity. Qed.

Lemma keeps_raise {A} (e : exn) : keeps R (@raise A e).
Proof. intros w. reflexivity. Qed.

Lemma keeps_bind {A B} (m : M A) (k : A -> M B) :
  keeps R m -> (forall a, keeps R (k a)) -> keeps R (bind m k).
Proof.
  intros Hm Hk w. unfold bind. specialize (Hm w).
  destruct (m w) as [[a|e] w1]; [|exact Hm].
  etransitivity; [exact Hm|apply Hk].
Qed.

Lemma keeps_if {A} (b : bool) (m1 m2 : M A) :
  keeps R m1 -> keeps R m2 -> keeps R (if b then m1 else m2).
Proof. now destruct b. Qed.

Lemma keeps_for_each {A} (xs : list A) (body : A -> M unit) :
  (forall x, keeps R (body x)) -> keeps R (for_each xs body).
Proof.
  intros Hbody. induction xs as [|x xs IH]; [apply keeps_ret|].
  simpl. apply keeps_bind; [apply Hbody|intros _; exact IH].
Qed.

Lemma keeps_try_except {A} (body : M A) (handler : exn -> option (M A)) :
  keeps R body ->
  (forall e h, handler e = Some h -> keeps R h) ->
  keeps R (try_except body handler).
Proof.
  intros Hbody Hhandler w. unfold try_except. specialize (Hbody w).
  destruct (body w) as [[a|e] w1]; [exact Hbody|].
  destruct (handler e) as [h|] eqn:Eh; [|exact Hbody].
  etransitivity; [exact Hbody|apply (Hhandler e h Eh)].
Qed.

Lemma keeps_with_selected conf selected_recipe (run : recipe_t -> M unit) :
  (forall recipe, keeps R (run recipe)) ->
  keeps R (with_selected conf selected_recipe run).
Proof.
  intros Hrun. unfold with_selected.
  destruct conf; try apply keeps_raise.
  destruct (dict_get items (KStr selected_recipe)) as [v|]; [|apply keeps_raise].
  destruct (recipe_of v); [apply Hrun|apply keeps_raise].
Qed.

Hypothesis keeps_log : forall lvl r, keeps R (log lvl r).
Hypothesis keeps_utcnow : keeps R utcnow.
Hypothesis keeps_now : keeps R now.

Lemma keeps_validate_schema_conf conf : keeps R (LogPatch.validate_schema_conf conf).
Proof.
  unfold LogPatch.validate_schema_conf. apply keeps_if; [apply keeps_ret|].
  apply keeps_bind; [|intros _; apply keeps_ret].
  apply keeps_for_each. intros error. apply keeps_log.
Qed.

Lemma keeps_handler rc_cmd (h : M unit) :
  match rc_cmd with
  | CalledProcessError rc cmd => Some (log ERROR (CaughtCalledProcessError rc cmd))
  | _ => None
  end = Some h -> keeps R h.
Proof. destruct rc_cmd; try discriminate. intros [= <-]. apply keeps_log. Qed.

Section LogPatchRuns.
Hypothesis keeps_execute : forall cmd log_file, keeps R (LogPatch.execute cmd log_file).

Lemma keeps_logpatch_logged_step recipe cmd suffix :
  keeps R (logpatch_logged_step recipe cmd suffix).
Proof.
  unfold logpatch_logged_step, LogPatch.datetime_now_utc.
  apply keeps_bind; [|intros ts; apply keeps_execute].
  apply keeps_bind; [apply keeps_utcnow|intros dt; apply keeps_ret].
Qed.

Lemma keeps_logpatch_exec_recipe recipe : keeps R (LogPatch.exec_recipe recipe).
Proof.
  rewrite logpatch_exec_recipe_steps.
  apply keeps_bind; [apply keeps_log|intros _].
  apply keeps_bind; [|intros _; apply keeps_bind; [|intros _]];
    apply keeps_if;
    first [apply keeps_logpatch_logged_step | apply keeps_ret | apply keeps_execute].
Qed.

Lemma keeps_logpatch_main config_path selected_recipe :
  keeps R (LogPatch.main config_path selected_recipe).
Proof.
  intros w. unfold LogPatch.main.
  destruct (config_at (env w) config_path) as [| |details|conf];
    match goal with
    | |- R ?w (snd (?m ?w)) => cut (keeps R m); [intros H; apply H|]
    end;
    try (apply keeps_bind; [apply keeps_log|intros _; apply keeps_raise]).
  apply keeps_bind; [apply keeps_validate_schema_conf|intros status].
  apply keeps_if.
  - apply keeps_bind; [apply keeps_log|intros _; apply keeps_raise].
  - apply keeps_bind; [|intros _; apply keeps_raise].
    apply keeps_try_except; [|apply keeps_handler].
    apply keeps_with_selected, keeps_logpatch_exec_recipe.
Qed.

End LogPatchRuns.

Section PkgPtchRuns.
Hypothesis keeps_execute : forall cmd log_file, keeps R (PkgPtch.execute cmd log_file).

Lemma keeps_pkgptch_logged_step cmd suffix :
  keeps R (pkgptch_logged_step cmd suffix).
Proof.
  unfold pkgptch_logged_step.
  apply keeps_bind; [apply keeps_now|intros dt; apply keeps_execute].
Qed.

Lemma keeps_pkgptch_exec_recipe recipe : keeps R (PkgPtch.exec_recipe recipe).
Proof.
  rewrite pkgptch_exec_recipe_steps.
  apply keeps_bind; [apply keeps_log|intros _].
  apply keeps_bind; [|intros _; apply keeps_bind; [|intros _]];
    apply keeps_if;
    first [apply keeps_pkgptch_logged_step | apply keeps_ret | apply keeps_execute].
Qed.

Lemma keeps_subscript value key : keeps R (subscript value key).
Proof.
  destruct value as [| | | | | |items]; try apply keeps_raise.
  unfold subscript. destruct (dict_get items (KStr key));
    [apply keeps_ret|apply keeps_raise].
Qed.

Lemma keeps_field {A} value key (use : yval -> M A) :
  (forall v, keeps R (use v)) ->
  keeps R (v <- subscript value key ;; use v).
Proof. intros Huse. apply keeps_bind; [apply keeps_subscript|exact Huse]. Qed.

Lemma keeps_truth v : keeps R (truth v).
Proof. destruct v as [| | | | | [|] | [|]]; first [apply keeps_ret | apply keeps_raise]. Qed.

Lemma keeps_as_str v : keeps R (as_str v).
Proof. destruct v; first [apply keeps_ret | apply keeps_raise]. Qed.

Lemma keeps_pkgptch_exec_recipe_entry recipe :
  keeps R (PkgPtch.exec_recipe_entry recipe).
Proof.
  unfold PkgPtch.exec_recipe_entry.
  repeat first
    [ apply keeps_field; intros ?
    | apply keeps_truth
    | apply keeps_as_str
    | apply keeps_log
    | apply keeps_now
    | apply keeps_execute
    | apply keeps_ret
    | apply keeps_if
    | apply keeps_bind; [|intros ?] ].
Qed.

Lemma keeps_pkgptch_main config_path selected_recipe :
  keeps R (PkgPtch.main config_path selected_recipe).
Proof.
  intros w. unfold PkgPtch.main.
  destruct (config_at (env w) config_path) as [| |details|conf];
    match goal with
    | |- R ?w (snd (?m ?w)) => cut (keeps R m); [intros H; apply H|]
    end;
    try (apply keeps_bind; [apply keeps_log|intros _; apply keeps_raise]).
  apply keeps_bind; [|intros _; apply keeps_raise].
  apply keeps_try_except; [|apply keeps_handler].
  apply keeps_bind; [apply keeps_subscript|apply keeps_pkgptch_exec_recipe_entry].
Qed.

End PkgPtchRuns.
End Keeps.

(** ** The invariants *)

#[local] Instance same_handles_preorder : PreOrder same_handles.
Proof.
  split; [intros w; reflexivity|].
  intros w1 w2 w3 H12 H23. unfold same_handles in *. congruence.
Qed.

Lemma outputs_app e n cmds cmds' :
  outputs e n (cmds ++ cmds') =
  outputs e n cmds +:+ outputs e (length cmds + n) cmds'.
Proof.
  revert n. induction cmds as [|cmd cmds IH]; intros n; [reflexivity|].
  simpl. rewrite IH, append_assoc. now rewrite Nat.add_succ_r.
Qed.

#[local] Instance console_follows_preorder : PreOrder console_follows.
Proof.
  split.
  - intros w. split; [reflexivity|]. exists []. simpl.
    now rewrite app_nil_r, append_nil_r.
  - intros w1 w2 w3 [He12 (c12 & Hs12 & Hn12 & Hc12)] [He23 (c23 & Hs23 & Hn23 & Hc23)].
    split; [congruence|]. exists (c12 ++ c23). repeat split.
    + now rewrite Hs23, Hs12, app_assoc.
    + rewrite Hn23, Hn12, length_app. lia.
    + rewrite Hc23, Hc12, He12, Hn12, outputs_app. apply append_assoc.
Qed.

Lemma emit_same_handles e w : same_handles w (emit e w).
Proof. reflexivity. Qed.


Lemma executed_same_handles mode cmd log_file w :
  same_handles w (snd (executed mode cmd log_file w)).
Proof.
  unfold executed, same_handles.
  destruct (run_process (env w) (spawned w) cmd) as [out rc].
  destruct (String.eqb log_file ""); [reflexivity|].
  now destruct (can_open (env w) log_file).
Qed.




(** X1: no file is left open.  Whatever the configuration file, the selected
    recipe, the commands and the file system do, and however the run ends,
    each script, and each run of [exec_recipe], leaves the set of open file
    handles as it found it. *)
Theorem no_file_is_left_open :
  forall (config_path selected_recipe : string) (recipe : recipe_t) (w : world),
    handles (snd (LogPatch.main config_path selected_recipe w)) = handles w /\
    handles (snd (PkgPtch.main config_path selected_recipe w)) = handles w /\
    handles (snd (LogPatch.exec_recipe recipe w)) = handles w /\
    handles (snd (PkgPtch.exec_recipe recipe w)) = handles w.
Proof.
  intros config_path selected_recipe recipe w.
  assert (forall lvl r, keeps same_handles (log lvl r)) as Hlog
      by (intros lvl r w0; reflexivity).
  assert (keeps same_handles utcnow) as Hutc by (intros w0; reflexivity).
  assert (keeps same_handles now) as Hnow by (intros w0; reflexivity).
  assert (forall cmd lf, keeps same_handles (LogPatch.execute cmd lf)) as Hlp
      by (intros cmd lf w0; rewrite logpatch_execute_executed;
          apply executed_same_handles).
  assert (forall cmd lf, keeps same_handles (PkgPtch.execute cmd lf)) as Hpk
      by (intros cmd lf w0; rewrite pkgptch_execute_executed;
          apply executed_same_handles).
  repeat split.
  - now apply (keeps_logpatch_main same_handles).
  - now apply (keeps_pkgptch_main same_handles).
  - now apply (keeps_logpatch_exec_recipe same_handles).
  - now apply (keeps_pkgptch_exec_recipe same_handles).
Qed.


(** ** The plan of a recipe *)

(** Running one more step of a recipe whose behaviour is not known: the cases
    of its process and of its log file. *)
Ltac crank :=
  repeat (first [ rewrite logpatch_logged_step_executed
                | rewrite pkgptch_logged_step_executed
                | rewrite logpatch_execute_executed
                | rewrite pkgptch_execute_executed ];
          unfold executed, utc_reading, local_reading; world_fields;
          match goal with
          | |- context [run_process ?e ?n ?c] =>
              destruct (run_process e n c) as [? ?]
          end;
          rewrite ?logpatch_log_file_nonempty, ?pkgptch_log_file_nonempty;
          cbn [String.eqb];
          try match goal with
              | |- context [can_open ?e ?p] => destruct (can_open e p)
              end;
          unfold status_of;
          try match goal with
              | |- context [Z.eqb ?rc 0] => destruct (Z.eqb rc 0)
              end;
          unfold ret; world_fields).

Ltac segment n m :=
  exists n, m; cbn [fst snd trace ticks emit];
  split; [read_trace; rewrite <- ?app_assoc; reflexivity|];
  split; [read_trace; rewrite <- ?app_assoc; reflexivity|];
  split; [reflexivity|];
  first [intros H; discriminate H | intros _; split; reflexivity].

Ltac some_segment :=
  first [ segment 0 0 | segment 0 1 | segment 1 0 | segment 1 1
        | segment 1 2 | segment 2 1 | segment 2 2 | segment 2 3
        | segment 3 2 | segment 3 3 | segment 1 3 | segment 3 1
        | segment 0 2 | segment 2 0 ].

(** X4: a run executes an initial segment of the plan of its recipe.  In
    either program and however the run ends, the processes started are the
    first [n] of the planned commands (inventory if asked for, patch,
    inventory if asked for) and the files opened are the first [m] of the
    planned log files, each named after a clock reading of its own; [m] clock
    readings are taken; a run that ends normally has gone through the whole
    plan. *)
Theorem exec_recipe_runs_an_initial_segment_of_its_plan :
  forall (recipe : recipe_t) (w : world),
    (let res := LogPatch.exec_recipe recipe w in
     let file k suffix := logpatch_log_file recipe (utc_reading w k) suffix in
     exists n m,
       spawns (trace (snd res)) = spawns (trace w) ++ take n (planned_commands recipe) /\
       opens (trace (snd res)) = opens (trace w) ++ take m (planned_files recipe file) /\
       ticks (snd res) = m + ticks w /\
       (fst res = Ok tt ->
        n = length (planned_commands recipe) /\
        m = length (planned_files recipe file))) /\
    (let res := PkgPtch.exec_recipe recipe w in
     let file k suffix := pkgptch_log_file (local_reading w k) suffix in
     exists n m,
       spawns (trace (snd res)) = spawns (trace w) ++ take n (planned_commands recipe) /\
       opens (trace (snd res)) = opens (trace w) ++ take m (planned_files recipe file) /\
       ticks (snd res) = m + ticks w /\
       (fst res = Ok tt ->
        n = length (planned_commands recipe) /\
        m = length (planned_files recipe file))).
Proof.
  intros [nm dir lv lp pc vc] w. split; intros res file; subst res file.
  - rewrite logpatch_exec_recipe_steps.
    cbn [log_package_version_cmd log_patch_cmd patch_cmd package_version_cmd name].
    unfold bind, log, note, ret.
    destruct lv, lp; crank; some_segment.
  - rewrite pkgptch_exec_recipe_steps.
    cbn [log_package_version_cmd log_patch_cmd patch_cmd package_version_cmd name].
    unfold bind, log, note, ret.
    destruct lv, lp; crank; some_segment.
Qed.

(** ** How runs fail *)

(** As [crank], keeping what is learnt about each process and each file. *)
Ltac crank_eqn :=
  repeat (first [ rewrite logpatch_logged_step_executed
                | rewrite pkgptch_logged_step_executed
                | rewrite logpatch_execute_executed
                | rewrite pkgptch_execute_executed ];
          unfold executed, utc_reading, local_reading; world_fields;
          match goal with
          | |- context [run_process ?e ?n ?c] =>
              destruct (run_process e n c) as [? ?] eqn:?
          end;
          rewrite ?logpatch_log_file_nonempty, ?pkgptch_log_file_nonempty;
          cbn [String.eqb];
          try match goal with
              | |- context [can_open ?e ?p] => destruct (can_open e p) eqn:?
              end;
          unfold status_of;
          try match goal with
              | |- context [Z.eqb ?rc 0] => destruct (Z.eqb rc 0) eqn:?
              end;
          unfold ret; world_fields).

Ltac failed_process n :=
  exists n; cbn [snd trace emit Nat.add];
  split; [read_trace; rewrite <- ?app_assoc; reflexivity|];
  split; [reflexivity|];
  match goal with
  | H : run_process _ _ _ = _ |- _ => rewrite H; reflexivity
  end.

Ltac failed_open m :=
  exists m; cbn [snd trace emit Nat.add];
  split; [read_trace; rewrite <- ?app_assoc; reflexivity|];
  reflexivity.

Ltac what_failed :=
  split;
  [ intros rc cmd H; first [discriminate H | injection H as <- <-];
    (split; [now apply Z.eqb_neq|]);
    first [failed_process 0 | failed_process 1 | failed_process 2]
  | intros p H; first [discriminate H | injection H as <-];
    (split; [assumption|]);
    first [failed_open 0 | failed_open 1 | failed_open 2] ].

(** X5: an error of a recipe names what failed.  In either program, when
    [exec_recipe] ends with [CalledProcessError(rc, cmd)], the code [rc] is
    not 0, [cmd] is the command of the last process that was started, at its
    place in the plan of the recipe, and [rc] is the code that this process
    returned; when it ends with the error of [open] on a path, that path is
    the last one the run tried to open, at its place among the planned log
    files, and it cannot be opened. *)
Theorem exec_recipe_error_names_what_failed :
  forall (recipe : recipe_t) (w : world),
    (let res := LogPatch.exec_recipe recipe w in
     let file k suffix := logpatch_log_file recipe (utc_reading w k) suffix in
     (forall rc cmd,
         fst res = Raise (CalledProcessError rc cmd) ->
         rc <> 0%Z /\
         exists n,
           spawns (trace (snd res)) =
             spawns (trace w) ++ take (S n) (planned_commands recipe) /\
           planned_commands recipe !! n = Some cmd /\
           snd (run_process (env w) (n + spawned w) cmd) = rc) /\
     (forall p,
         fst res = Raise (OSError p) ->
         can_open (env w) p = false /\
         exists m,
           opens (trace (snd res)) =
             opens (trace w) ++ take (S m) (planned_files recipe file) /\
           planned_files recipe file !! m = Some p)) /\
    (let res := PkgPtch.exec_recipe recipe w in
     let file k suffix := pkgptch_log_file (local_reading w k) suffix in
     (forall rc cmd,
         fst res = Raise (CalledProcessError rc cmd) ->
         rc <> 0%Z /\
         exists n,
           spawns (trace (snd res)) =
             spawns (trace w) ++ take (S n) (planned_commands recipe) /\
           planned_commands recipe !! n = Some cmd /\
           snd (run_process (env w) (n + spawned w) cmd) = rc) /\
     (forall p,
         fst res = Raise (OSError p) ->
         can_open (env w) p = false /\
         exists m,
           opens (trace (snd res)) =
             opens (trace w) ++ take (S m) (planned_files recipe file) /\
           planned_files recipe file !! m = Some p)).
Proof.
  intros [nm dir lv lp pc vc] w. split; intros res file; subst res file.
  - rewrite logpatch_exec_recipe_steps.
    cbn [log_package_version_cmd log_patch_cmd patch_cmd package_version_cmd name].
    unfold bind, log, note, ret.
    destruct lv, lp; crank_eqn; cbn [fst]; what_failed.
  - rewrite pkgptch_exec_recipe_steps.
    cbn [log_package_version_cmd log_patch_cmd patch_cmd package_version_cmd name].
    unfold bind, log, note, ret.
    destruct lv, lp; crank_eqn; cbn [fst]; what_failed.
Qed.

Lemma exec_recipe_error_names_what_failed_witness :
  exists n,
    spawns (trace (snd (LogPatch.exec_recipe broken_recipe demo_world))) =
      take (S n) (planned_commands broken_recipe) /\
    planned_commands broken_recipe !! n = Some "apt-get upgrade" /\
    snd (run_process demo_env n "apt-get upgrade") = 127%Z.
Proof.
  destruct (exec_recipe_error_names_what_failed broken_recipe demo_world)
    as [[Hlog _] _].
  destruct (Hlog 127%Z "apt-get upgrade" ltac:(vm_compute; reflexivity))
    as (_ & n & Hspawns & Hplan & Hrc).
  exists n. split; [exact Hspawns|]. split; [exact Hplan|].
  rewrite Nat.add_0_r in Hrc. exact Hrc.
Defined.

(** ** The scripts before and after the recipe *)

Lemma validate_schema_conf_run conf w :
  LogPatch.validate_schema_conf conf w =
  (Ok (if document_ok conf then 0%Z else 1%Z),
   World (env w) (console w) (files w) (handles w) (spawned w) (ticks w)
         (trace w ++ map (fun error => EvLog ERROR (SyntaxError error))
                         (LogPatch.errors_of conf))).
Proof.
  unfold LogPatch.validate_schema_conf.
  pose proof (document_errors_nil conf) as Hiff.
  destruct (LogPatch.errors_of conf) as [|e errors] eqn:E.
  - rewrite (proj1 Hiff eq_refl). simpl. unfold ret. destruct w; simpl.
    now rewrite app_nil_r.
  - destruct (document_ok conf); [discriminate (proj2 Hiff eq_refl)|].
    cbn [length Nat.eqb].
    erewrite bind_ok by apply log_errors_loop. reflexivity.
Qed.

Lemma dict_get_str_in items s v :
  dict_get items (KStr s) = Some v -> In (KStr s) (map fst items).
Proof.
  induction items as [|[k x] items IH]; [discriminate|].
  simpl. destruct k as [t| | |]; simpl; auto.
  destruct (String.eqb s t) eqn:E; [|auto].
  apply String.eqb_eq in E. subst t. now left.
Qed.

Lemma document_ok_entry items s v :
  document_ok (YDict items) = true ->
  dict_get items (KStr s) = Some v -> entry_ok v = true.
Proof.
  unfold document_ok. rewrite forallb_forall. intros Hall Hget.
  specialize (Hall (KStr s) (dict_get_str_in _ _ _ Hget)).
  now rewrite Hget in Hall.
Qed.

Lemma logpatch_main_refused config_path selected_recipe w r :
  refusal true config_path (config_at (env w) config_path) = Some r ->
  LogPatch.main config_path selected_recipe w =
  (Raise (SystemExit 1),
   World (env w) (console w) (files w) (handles w) (spawned w) (ticks w)
         (trace w
          ++ map (fun error => EvLog ERROR (SyntaxError error))
                 (refusal_errors true (config_at (env w) config_path))
          ++ [EvLog CRITICAL r])).
Proof.
  unfold LogPatch.main, refusal, refusal_errors.
  destruct (config_at (env w) config_path) as [| |details|conf];
    try (intros [= <-]; reflexivity).
  unfold bind. rewrite validate_schema_conf_run.
  destruct (document_ok conf); [discriminate|].
  cbn [andb negb Z.eqb]. intros [= <-].
  unfold log, note, raise, emit. cbn [trace]. now rewrite <- app_assoc.
Qed.

Lemma pkgptch_main_refused config_path selected_recipe w r :
  refusal false config_path (config_at (env w) config_path) = Some r ->
  PkgPtch.main config_path selected_recipe w =
  (Raise (SystemExit 1),
   World (env w) (console w) (files w) (handles w) (spawned w) (ticks w)
         (trace w ++ [EvLog CRITICAL r])).
Proof.
  unfold PkgPtch.main, refusal.
  destruct (config_at (env w) config_path) as [| |details|conf];
    intros [= <-]; reflexivity.
Qed.

(** X6: a configuration file that cannot be used stops the script before it
    does anything.  When the path does not exist, is not a file, does not
    parse, or (in [logpatch.py]) holds a document that is not in order, the
    script logs the validation errors, if any, then one critical record, and
    exits with status 1: no recipe is looked up, no clock is read, no file is
    opened and no process is started.  [pkgptch.py] has the first three
    cases only. *)
Theorem unusable_configuration_stops_the_script :
  forall (config_path selected_recipe : string) (w : world) (r : log_record),
    (refusal true config_path (config_at (env w) config_path) = Some r ->
     LogPatch.main config_path selected_recipe w =
     (Raise (SystemExit 1),
      World (env w) (console w) (files w) (handles w) (spawned w) (ticks w)
            (trace w
             ++ map (fun error => EvLog ERROR (SyntaxError error))
                    (refusal_errors true (config_at (env w) config_path))
             ++ [EvLog CRITICAL r]))) /\
    (refusal false config_path (config_at (env w) config_path) = Some r ->
     PkgPtch.main config_path selected_recipe w =
     (Raise (SystemExit 1),
      World (env w) (console w) (files w) (handles w) (spawned w) (ticks w)
            (trace w ++ [EvLog CRITICAL r]))).
Proof.
  intros config_path selected_recipe w r. split.
  - apply logpatch_main_refused.
  - apply pkgptch_main_refused.
Qed.

Lemma unusable_configuration_stops_the_script_witness :
  fst (LogPatch.main "empty.yaml" "web" edge_world) = Raise (SystemExit 1) /\
  trace (snd (LogPatch.main "empty.yaml" "web" edge_world)) =
    [EvLog ERROR (SyntaxError (ValidationError [] (NotOfType JObject)));
     EvLog CRITICAL (SchemaMismatch "empty.yaml")].
Proof.
  destruct (unusable_configuration_stops_the_script
              "empty.yaml" "web" edge_world (SchemaMismatch "empty.yaml"))
    as [H _].
  rewrite (H eq_refl). split; reflexivity.
Defined.

(** X7: a recipe that is not in the document.  When the document is loaded
    (and, in [logpatch.py], in order) but has no entry under the selected
    name, the lookup raises [KeyError], which the script does not catch: it
    ends with exit status 1, having changed nothing. *)
Theorem missing_recipe_is_an_uncaught_key_error :
  forall (config_path selected_recipe : string) (items : list (ykey * yval))
         (w : world),
    config_at (env w) config_path = Parsed (YDict items) ->
    dict_get items (KStr selected_recipe) = None ->
    (document_ok (YDict items) = true ->
     LogPatch.main config_path selected_recipe w =
       (Raise (KeyError selected_recipe), w)) /\
    PkgPtch.main config_path selected_recipe w =
      (Raise (KeyError selected_recipe), w) /\
    exit_status (@Raise unit (KeyError selected_recipe)) = 1%Z.
Proof.
  intros config_path selected_recipe items w Hconf Hget. repeat split.
  - intros Hok. apply document_errors_nil in Hok.
    rewrite (logpatch_main_run _ _ _ _ Hconf Hok).
    unfold with_selected. now rewrite Hget.
  - rewrite (pkgptch_main_run _ _ _ _ Hconf).
    unfold bind, subscript. now rewrite Hget.
Qed.

Lemma missing_recipe_is_an_uncaught_key_error_witness :
  LogPatch.main "good.yaml" "db" edge_world = (Raise (KeyError "db"), edge_world).
Proof.
  destruct (missing_recipe_is_an_uncaught_key_error
              "good.yaml" "db" _ edge_world eq_refl eq_refl) as [H _].
  apply H. reflexivity.
Defined.

(** X8: validation makes the fields safe to read.  When the document is in
    order and has an entry under the selected name, that entry has the six
    fields with their types, so [logpatch.py] runs [exec_recipe] on them: the
    script ends with [exit(0)] after a normal run or a caught
    [CalledProcessError], and with the exception of the run otherwise. *)
Theorem validated_entry_is_executed :
  forall (config_path selected_recipe : string) (items : list (ykey * yval))
         (v : yval) (w : world),
    config_at (env w) config_path = Parsed (YDict items) ->
    document_ok (YDict items) = true ->
    dict_get items (KStr selected_recipe) = Some v ->
    exists recipe,
      recipe_of v = Some recipe /\
      LogPatch.main config_path selected_recipe w =
      match LogPatch.exec_recipe recipe w with
      | (Ok _, w1) => (Raise (SystemExit 0), w1)
      | (Raise (CalledProcessError rc cmd), w1) =>
          (Raise (SystemExit 0),
           emit (EvLog ERROR (CaughtCalledProcessError rc cmd)) w1)
      | (Raise e, w1) => (Raise e, w1)
      end.
Proof.
  intros config_path selected_recipe items v w Hconf Hok Hget.
  destruct (entry_ok_recipe_of v (document_ok_entry _ _ _ Hok Hget))
    as [recipe Hrecipe].
  exists recipe. split; [exact Hrecipe|].
  apply document_errors_nil in Hok.
  rewrite (logpatch_main_run _ _ _ _ Hconf Hok).
  unfold with_selected. now rewrite Hget, Hrecipe.
Qed.

Lemma validated_entry_is_executed_witness :
  exists recipe,
    recipe = web_recipe /\
    LogPatch.main "good.yaml" "web" edge_world =
    match LogPatch.exec_recipe recipe edge_world with
    | (Ok _, w1) => (Raise (SystemExit 0), w1)
    | (Raise (CalledProcessError rc cmd), w1) =>
        (Raise (SystemExit 0),
         emit (EvLog ERROR (CaughtCalledProcessError rc cmd)) w1)
    | (Raise e, w1) => (Raise e, w1)
    end.
Proof.
  destruct (validated_entry_is_executed
              "good.yaml" "web" _ _ edge_world eq_refl eq_refl eq_refl)
    as (recipe & Hrecipe & Hmain).
  exists recipe. split; [|exact Hmain].
  vm_compute in Hrecipe. now injection Hrecipe as <-.
Defined.

(** ** More on validation *)

Lemma field_error_count path items fields :
  length (flat_map (field_errors path items) fields)
  + length (flat_map (missing_errors path items) fields)
  = length (List.filter (fun f => negb (has_field items f)) fields).
Proof.
  induction fields as [|f fields IH]; [reflexivity|].
  simpl. rewrite !length_app. unfold field_errors at 1, missing_errors at 1.
  unfold has_field at 1, dict_has.
  destruct (dict_get items (KStr (fst f))) as [x|]; simpl.
  - destruct (is_type x (snd f)); simpl; lia.
  - lia.
Qed.

(** X10: validation reports every field that is not in order.  For an entry
    that is a dictionary the validator yields exactly one error for each of
    the six required properties that is missing or ill-typed: for a missing
    one an error at the entry's path, for an ill-typed one an error at the
    path of the property; an entry that is not a dictionary yields one error.
    The errors of a document are those of its entries, one entry after the
    other: no error hides another. *)
Theorem validation_reports_every_failing_field :
  (forall (path : list ykey) (v : yval),
      length (iter_errors LogPatch.recipe_schema path v) =
      match v with
      | YDict items =>
          length (List.filter (fun f => negb (has_field items f)) required_fields)
      | _ => 1
      end) /\
  (forall (path : list ykey) (items : list (ykey * yval)) (f : string * jtype),
      In f required_fields ->
      match dict_get items (KStr (fst f)) with
      | None =>
          In (ValidationError path (RequiredMissing (fst f)))
             (iter_errors LogPatch.recipe_schema path (YDict items))
      | Some x =>
          is_type x (snd f) = false ->
          In (ValidationError (path ++ [KStr (fst f)]) (NotOfType (snd f)))
             (iter_errors LogPatch.recipe_schema path (YDict items))
      end) /\
  (forall items : list (ykey * yval),
      LogPatch.errors_of (YDict items) =
      flat_map (fun k => match dict_get items k with
                         | Some v => iter_errors LogPatch.recipe_schema [k] v
                         | None => []
                         end) (map fst items)).
Proof.
  split; [|split].
  - intros path v. rewrite recipe_schema_errors.
    destruct v; try reflexivity.
    rewrite length_app. apply field_error_count.
  - intros path items f Hf. rewrite recipe_schema_errors.
    destruct (dict_get items (KStr (fst f))) as [x|] eqn:Hget.
    + intros Htype. apply in_or_app. left. apply in_flat_map.
      exists f. split; [exact Hf|]. unfold field_errors.
      rewrite Hget, Htype. now left.
    + apply in_or_app. right. apply in_flat_map.
      exists f. split; [exact Hf|]. unfold missing_errors, dict_has.
      rewrite Hget. now left.
  - intros items. apply (conf_schema_errors (YDict items)).
Qed.

Lemma validation_reports_every_failing_field_witness :
  let items := [(KStr "name", YStr "web"); (KStr "log_patch_cmd", YInt 1)] in
  length (iter_errors LogPatch.recipe_schema [KStr "web"] (YDict items)) = 5 /\
  In (ValidationError [KStr "web"; KStr "log_patch_cmd"] (NotOfType JBoolean))
     (iter_errors LogPatch.recipe_schema [KStr "web"] (YDict items)).
Proof.
  intros items.
  destruct validation_reports_every_failing_field as (Hcount & Hfield & _).
  split.
  - rewrite Hcount. reflexivity.
  - apply (Hfield [KStr "web"] items ("log_patch_cmd", JBoolean)).
    + simpl. tauto.
    + reflexivity.
Defined.

(** ** More on the runs of a recipe *)

(** X11: a log file that cannot be opened stops the recipe before any
    command.  When a recipe asks for some logging and the log file of its
    first logged step cannot be opened, [exec_recipe] ends with the error of
    [open] right after reading the clock: no process has been started, and
    nothing has been printed or written.  (The scripts do not catch this
    error.) *)
Theorem unopenable_first_log_file_runs_nothing :
  forall (recipe : recipe_t) (w : world),
    log_package_version_cmd recipe || log_patch_cmd recipe = true ->
    let suffix := if log_package_version_cmd recipe then pre_patch else name recipe in
    let w0 := emit (EvLog INFO (ExecutingRecipe (name recipe))) w in
    (let p := logpatch_log_file recipe (utc_reading w 0) suffix in
     can_open (env w) p = false ->
     LogPatch.exec_recipe recipe w =
     (Raise (OSError p),
      emit (EvOpenFailed p ModeAppend)
        (emit (EvClock UTC (utc_reading w 0)) (set_ticks (S (ticks w)) w0)))) /\
    (let p := pkgptch_log_file (local_reading w 0) suffix in
     can_open (env w) p = false ->
     PkgPtch.exec_recipe recipe w =
     (Raise (OSError p),
      emit (EvOpenFailed p ModeWrite)
        (emit (EvClock Local (local_reading w 0)) (set_ticks (S (ticks w)) w0)))).
Proof.
  intros [nm dir lv lp pc vc] w Hflags.
  cbn [log_package_version_cmd log_patch_cmd name] in *. cbv zeta.
  split; intros Hcan.
  - rewrite logpatch_exec_recipe_steps.
    cbn [log_package_version_cmd log_patch_cmd patch_cmd package_version_cmd name].
    unfold bind, log, note, ret.
    destruct lv, lp; try discriminate;
      rewrite logpatch_logged_step_executed; unfold executed;
      unfold utc_reading in *; world_fields; cbn [Nat.add] in Hcan;
      match goal with
      | |- context [run_process ?e ?n ?c] => destruct (run_process e n c)
      end;
      rewrite logpatch_log_file_nonempty, Hcan; reflexivity.
  - rewrite pkgptch_exec_recipe_steps.
    cbn [log_package_version_cmd log_patch_cmd patch_cmd package_version_cmd name].
    unfold bind, log, note, ret.
    destruct lv, lp; try discriminate;
      rewrite pkgptch_logged_step_executed; unfold executed;
      unfold local_reading in *; world_fields; cbn [Nat.add] in Hcan;
      match goal with
      | |- context [run_process ?e ?n ?c] => destruct (run_process e n c)
      end;
      rewrite pkgptch_log_file_nonempty, Hcan; reflexivity.
Qed.

Lemma unopenable_first_log_file_runs_nothing_witness :
  fst (LogPatch.exec_recipe web_recipe edge_world) =
    Raise (OSError "/var/log/patch/20230102T030400.000005Z_web.log") /\
  spawned (snd (LogPatch.exec_recipe web_recipe edge_world)) = 0.
Proof.
  destruct (unopenable_first_log_file_runs_nothing web_recipe edge_world eq_refl)
    as [H _].
  rewrite (H eq_refl). split; reflexivity.
Defined.

(** ** More on the streaming executor *)





(** ** What the log files of a run hold *)

Ltac names_differ :=
  let E := fresh "E" in
  intros E;
  first [ apply logpatch_log_file_inj in E as [_ E]
        | apply pkgptch_log_file_inj in E as [_ E] ];
  first [ congruence | discriminate E ].

(** X13: each log file of a run holds the output of its own step.  After a
    run of [exec_recipe] with both flags set that comes to its end, for a
    recipe whose name is not one of the two inventory suffixes, the file of
    each step holds the whole output of the process of that step and of no
    other: in [logpatch.py] after what the file held before the run, in
    [pkgptch.py] as its whole content. *)
Theorem log_files_hold_the_output_of_their_steps :
  forall (recipe : recipe_t) (w w' : world),
    log_package_version_cmd recipe = true ->
    log_patch_cmd recipe = true ->
    name recipe <> pre_patch ->
    name recipe <> post_patch ->
    let vc := package_version_cmd recipe in
    let pc := patch_cmd recipe in
    let out k cmd := fst (run_process (env w) (k + spawned w) cmd) in
    (LogPatch.exec_recipe recipe w = (Ok tt, w') ->
     let p1 := logpatch_log_file recipe (utc_reading w 0) pre_patch in
     let p2 := logpatch_log_file recipe (utc_reading w 1) (name recipe) in
     let p3 := logpatch_log_file recipe (utc_reading w 2) post_patch in
     files w' !! p1 = Some (default "" (files w !! p1) +:+ out 0 vc) /\
     files w' !! p2 = Some (default "" (files w !! p2) +:+ out 1 pc) /\
     files w' !! p3 = Some (default "" (files w !! p3) +:+ out 2 vc)) /\
    (PkgPtch.exec_recipe recipe w = (Ok tt, w') ->
     let p1 := pkgptch_log_file (local_reading w 0) pre_patch in
     let p2 := pkgptch_log_file (local_reading w 1) (name recipe) in
     let p3 := pkgptch_log_file (local_reading w 2) post_patch in
     files w' !! p1 = Some (out 0 vc) /\
     files w' !! p2 = Some (out 1 pc) /\
     files w' !! p3 = Some (out 2 vc)).
Proof.
  intros [nm dir lv lp pc vc] w w' Hlv Hlp Hpre Hpost.
  cbn [log_package_version_cmd log_patch_cmd name patch_cmd package_version_cmd] in *.
  subst lv lp. cbv zeta. split.
  - rewrite logpatch_exec_recipe_steps.
    cbn [log_package_version_cmd log_patch_cmd patch_cmd package_version_cmd name].
    unfold bind, log, note, ret. crank;
      (intros H; first [discriminate H | injection H as <-]).
    cbn [files fst].
    repeat first [ rewrite lookup_insert_eq
                 | rewrite lookup_insert_ne by names_differ ].
    unfold open_content.
    repeat split; destruct (files w !! _); reflexivity.
  - rewrite pkgptch_exec_recipe_steps.
    cbn [log_package_version_cmd log_patch_cmd patch_cmd package_version_cmd name].
    unfold bind, log, note, ret. crank;
      (intros H; first [discriminate H | injection H as <-]).
    cbn [files fst].
    repeat first [ rewrite lookup_insert_eq
                 | rewrite lookup_insert_ne by names_differ ].
    repeat split; reflexivity.
Qed.

Lemma log_files_hold_the_output_of_their_steps_witness :
  files (snd (LogPatch.exec_recipe demo_recipe demo_world))
    !! "/tmp/logs/20221201T103001.123456Z_demo.log" = Some ("patched" +:+ nl) /\
  files (snd (PkgPtch.exec_recipe demo_recipe demo_world))
    !! "20221201T233002Z_package_versions_post-patch.log" = Some ("v1" +:+ nl).
Proof.
  split.
  - destruct (log_files_hold_the_output_of_their_steps demo_recipe demo_world
                (snd (LogPatch.exec_recipe demo_recipe demo_world))
                eq_refl eq_refl
                ltac:(intros E; vm_compute in E; discriminate E)
                ltac:(intros E; vm_compute in E; discriminate E)) as [H _].
    destruct (H ltac:(vm_compute; reflexivity)) as (_ & H2 & _).
    vm_compute in H2. vm_compute. exact H2.
  - destruct (log_files_hold_the_output_of_their_steps demo_recipe demo_world
                (snd (PkgPtch.exec_recipe demo_recipe demo_world))
                eq_refl eq_refl
                ltac:(intros E; vm_compute in E; discriminate E)
                ltac:(intros E; vm_compute in E; discriminate E)) as [_ H].
    destruct (H ltac:(vm_compute; reflexivity)) as (_ & _ & H3).
    vm_compute in H3. vm_compute. exact H3.
Defined.

(** ** The two programs side by side *)

(** One step of both programs at once: the two runs ask the same process. *)
Ltac lockstep :=
  repeat (first [ rewrite logpatch_logged_step_executed
                | rewrite logpatch_execute_executed ];
          first [ rewrite pkgptch_logged_step_executed
                | rewrite pkgptch_execute_executed ];
          unfold executed, utc_reading, local_reading; world_fields;
          match goal with
          | |- context [run_process ?e ?n ?c] =>
              destruct (run_process e n c) as [? ?]
          end;
          rewrite ?logpatch_log_file_nonempty, ?pkgptch_log_file_nonempty;
          cbn [String.eqb];
          repeat match goal with
                 | H : forall suffix, can_open _ _ = true |- _ => rewrite !H
                 end;
          unfold status_of;
          try match goal with
              | |- context [Z.eqb ?rc 0] => destruct (Z.eqb rc 0)
              end;
          unfold ret; world_fields).

(** X14: the two programs differ in their log files only.  When the log
    files that either program would name can be opened, a run of
    [exec_recipe] of [logpatch.py] and one of [pkgptch.py] on the same recipe
    in the same situation end in the same way, start the same processes, read
    the clock equally often, yield the same lines, show the same text on the
    console and open equally many files. *)
Theorem both_programs_run_a_recipe_alike :
  forall (recipe : recipe_t) (w : world),
    (forall k suffix,
        can_open (env w) (logpatch_log_file recipe (utc_reading w k) suffix) = true) ->
    (forall k suffix,
        can_open (env w) (pkgptch_log_file (local_reading w k) suffix) = true) ->
    let a := LogPatch.exec_recipe recipe w in
    let b := PkgPtch.exec_recipe recipe w in
    fst a = fst b /\
    console (snd a) = console (snd b) /\
    spawned (snd a) = spawned (snd b) /\
    ticks (snd a) = ticks (snd b) /\
    spawns (trace (snd a)) = spawns (trace (snd b)) /\
    yields (trace (snd a)) = yields (trace (snd b)) /\
    length (opens (trace (snd a))) = length (opens (trace (snd b))).
Proof.
  intros [nm dir lv lp pc vc] w Hlog Hpkg a b. subst a b.
  pose proof (Hlog 0) as Hl0. pose proof (Hlog 1) as Hl1. pose proof (Hlog 2) as Hl2.
  pose proof (Hpkg 0) as Hp0. pose proof (Hpkg 1) as Hp1. pose proof (Hpkg 2) as Hp2.
  clear Hlog Hpkg. unfold utc_reading, local_reading in *. cbn [Nat.add] in *.
  destruct (LogPatch.exec_recipe _ w) as [a wa] eqn:Ea.
  destruct (PkgPtch.exec_recipe _ w) as [b wb] eqn:Eb.
  revert Ea Eb.
  rewrite logpatch_exec_recipe_steps, pkgptch_exec_recipe_steps.
  cbn [log_package_version_cmd log_patch_cmd patch_cmd package_version_cmd name].
  unfold bind, log, note, ret.
  destruct lv, lp; lockstep;
    intros [= <- <-] [= <- <-]; cbn [fst snd console spawned ticks trace emit];
    repeat split;
    repeat (progress (rewrite ?spawns_app, ?opens_app, ?yields_app,
                        ?spawns_line_events, ?opens_line_events,
                        ?yields_line_events, ?length_app; simpl));
    reflexivity.
Qed.

Lemma both_programs_run_a_recipe_alike_witness :
  console (snd (LogPatch.exec_recipe demo_recipe demo_world)) =
  console (snd (PkgPtch.exec_recipe demo_recipe demo_world)).
Proof.
  assert (forall k suffix,
             can_open (env demo_world)
               (logpatch_log_file demo_recipe (utc_reading demo_world k) suffix) = true)
    as Hlog by (intros k suffix; vm_compute; reflexivity).
  assert (forall k suffix,
             can_open (env demo_world)
               (pkgptch_log_file (local_reading demo_world k) suffix) = true)
    as Hpkg by (intros k suffix; vm_compute; reflexivity).
  destruct (both_programs_run_a_recipe_alike demo_recipe demo_world Hlog Hpkg)
    as (_ & Hconsole & _).
  exact Hconsole.
Defined.

(** ** One file at a time *)

Lemma one_file_at_a_time_app cur a b :
  one_file_at_a_time cur a = true ->
  one_file_at_a_time None b = true ->
  one_file_at_a_time cur (a ++ b) = true.
Proof.
  revert cur. induction a as [|e a IH]; intros cur Ha Hb.
  - destruct cur; [discriminate Ha|exact Hb].
  - destruct e, cur as [q|]; simpl in *; try discriminate Ha;
      try (apply andb_prop in Ha as [-> Ha]; simpl); now apply IH.
Qed.

#[local] Instance orderly_preorder : PreOrder orderly.
Proof.
  split.
  - intros w. exists []. now rewrite app_nil_r.
  - intros w1 w2 w3 (a12 & Ht12 & Ha12) (a23 & Ht23 & Ha23).
    exists (a12 ++ a23). split; [now rewrite Ht23, Ht12, app_assoc|].
    now apply one_file_at_a_time_app.
Qed.

Lemma one_file_at_a_time_lines_sink f ls rest :
  one_file_at_a_time (Some f) (flat_map (line_events (Some f)) ls ++ rest) =
  one_file_at_a_time (Some f) rest.
Proof.
  induction ls as [|l ls IH]; [reflexivity|].
  cbn [flat_map line_events app one_file_at_a_time].
  now rewrite String.eqb_refl.
Qed.

Lemma one_file_at_a_time_lines_console cur ls rest :
  one_file_at_a_time cur (flat_map (line_events None) ls ++ rest) =
  one_file_at_a_time cur rest.
Proof. induction ls as [|l ls IH]; [reflexivity|exact IH]. Qed.

Lemma executed_orderly mode cmd log_file w :
  orderly w (snd (executed mode cmd log_file w)).
Proof.
  unfold executed, orderly.
  destruct (run_process (env w) (spawned w) cmd) as [out rc].
  destruct (String.eqb log_file "");
    [|destruct (can_open (env w) log_file)];
    cbn [snd trace emit]; eexists; (split; [reflexivity|]).
  - cbn [app one_file_at_a_time].
    now rewrite one_file_at_a_time_lines_console.
  - cbn [app one_file_at_a_time].
    rewrite one_file_at_a_time_lines_sink. simpl.
    now rewrite String.eqb_refl.
  - reflexivity.
Qed.

(** X15: files are used one at a time.  In any run of [logpatch.py], in any
    run of [pkgptch.py] that the model follows to its end (one that does not
    stop at a field value it cannot use, which a missing field is not), and
    in any run of [exec_recipe], whatever the commands do and however the run
    ends, the events of the run are such that a log file is opened only when
    no other is open, every write goes to the file that is open at that
    moment, the file that is closed is the one that is open, and no file is
    open at the end: the file of one step is never held across the next. *)
Theorem log_files_are_used_one_at_a_time :
  forall (config_path selected_recipe : string) (recipe : recipe_t) (w : world),
    let in_order (w' : world) :=
      exists added,
        trace w' = trace w ++ added /\ one_file_at_a_time None added = true in
    in_order (snd (LogPatch.main config_path selected_recipe w)) /\
    (fst (PkgPtch.main config_path selected_recipe w) <> Raise Unmodelled ->
     in_order (snd (PkgPtch.main config_path selected_recipe w))) /\
    in_order (snd (LogPatch.exec_recipe recipe w)) /\
    in_order (snd (PkgPtch.exec_recipe recipe w)).
Proof.
  intros config_path selected_recipe recipe w in_order.
  assert (forall lvl r, keeps orderly (log lvl r)) as Hlog
      by (intros lvl r w0; eexists; split; reflexivity).
  assert (keeps orderly utcnow) as Hutc
      by (intros w0; eexists; split; reflexivity).
  assert (keeps orderly now) as Hnow
      by (intros w0; eexists; split; reflexivity).
  assert (forall cmd lf, keeps orderly (LogPatch.execute cmd lf)) as Hlp
      by (intros cmd lf w0; rewrite logpatch_execute_executed;
          apply executed_orderly).
  assert (forall cmd lf, keeps orderly (PkgPtch.execute cmd lf)) as Hpk
      by (intros cmd lf w0; rewrite pkgptch_execute_executed;
          apply executed_orderly).
  split; [|split; [intros _|split]].
  - now apply (keeps_logpatch_main orderly).
  - now apply (keeps_pkgptch_main orderly).
  - now apply (keeps_logpatch_exec_recipe orderly).
  - now apply (keeps_pkgptch_exec_recipe orderly).
Qed.


(** ** The script that validates nothing *)

Lemma subscript_missing items key w :
  dict_get items (KStr key) = None ->
  subscript (YDict items) key w = (Raise (KeyError key), w).
Proof. intros H. unfold subscript. now rewrite H. Qed.

Lemma subscript_found items key v w :
  dict_get items (KStr key) = Some v ->
  subscript (YDict items) key w = (Ok v, w).
Proof. intros H. unfold subscript. now rewrite H. Qed.

(** X16: [pkgptch.py] reads each field when it needs it.  An entry that
    holds the five fields the program reads runs as the recipe made of them,
    with or without a [log_directory].  A field that is missing is a
    [KeyError] at the statement that reads it, after what the statements
    before it have done: nothing for the name; the record of the recipe's
    name for a flag; that record and one reading of the clock, with no file
    opened and no process started, for the inventory command of a recipe
    that asks for the inventory.  The script does not catch the [KeyError]:
    it ends with exit status 1. *)
Theorem pkgptch_reads_each_field_when_it_needs_it :
  forall (items : list (ykey * yval)) (w : world),
    (forall recipe,
        get_str items "name" = Some (name recipe) ->
        get_bool items "log_package_version_cmd" =
          Some (log_package_version_cmd recipe) ->
        get_bool items "log_patch_cmd" = Some (log_patch_cmd recipe) ->
        get_str items "patch_cmd" = Some (patch_cmd recipe) ->
        get_str items "package_version_cmd" = Some (package_version_cmd recipe) ->
        PkgPtch.exec_recipe_entry (YDict items) w = PkgPtch.exec_recipe recipe w) /\
    (dict_get items (KStr "name") = None ->
     PkgPtch.exec_recipe_entry (YDict items) w = (Raise (KeyError "name"), w)) /\
    (forall n,
        dict_get items (KStr "name") = Some (YStr n) ->
        dict_get items (KStr "log_package_version_cmd") = None ->
        PkgPtch.exec_recipe_entry (YDict items) w =
        (Raise (KeyError "log_package_version_cmd"),
         emit (EvLog INFO (ExecutingRecipe n)) w)) /\
    (forall n flag,
        dict_get items (KStr "name") = Some (YStr n) ->
        dict_get items (KStr "log_package_version_cmd") = Some flag ->
        fst (truth flag w) = Ok true ->
        dict_get items (KStr "package_version_cmd") = None ->
        PkgPtch.exec_recipe_entry (YDict items) w =
        (Raise (KeyError "package_version_cmd"),
         emit (EvClock Local (local_reading w 0))
           (set_ticks (S (ticks w)) (emit (EvLog INFO (ExecutingRecipe n)) w)))) /\
    (forall config_path selected_recipe docs key w',
        config_at (env w) config_path = Parsed (YDict docs) ->
        dict_get docs (KStr selected_recipe) = Some (YDict items) ->
        PkgPtch.exec_recipe_entry (YDict items) w = (Raise (KeyError key), w') ->
        PkgPtch.main config_path selected_recipe w = (Raise (KeyError key), w') /\
        exit_status (fst (PkgPtch.main config_path selected_recipe w)) = 1%Z).
Proof.
  intros items w. split; [|split; [|split; [|split]]].
  - intros recipe. apply exec_recipe_entry_fields.
  - intros Hname. unfold PkgPtch.exec_recipe_entry, bind.
    now rewrite (subscript_missing _ _ _ Hname).
  - intros n Hname Hflag. unfold PkgPtch.exec_recipe_entry, bind.
    rewrite (subscript_found _ _ _ _ Hname). simpl.
    now rewrite (subscript_missing _ _ _ Hflag).
  - intros n flag Hname Hflag Htrue Hcmd.
    unfold PkgPtch.exec_recipe_entry, bind.
    rewrite (subscript_found _ _ _ _ Hname). simpl.
    rewrite (subscript_found _ _ _ _ Hflag).
    assert (truth flag (emit (EvLog INFO (ExecutingRecipe n)) w) =
            (Ok true, emit (EvLog INFO (ExecutingRecipe n)) w)) as ->.
    { destruct flag as [| | | | |[|]|[|]]; simpl in *; try discriminate Htrue;
        unfold ret in *; simpl in *; congruence. }
    simpl. now rewrite (subscript_missing _ _ _ Hcmd).
  - intros config_path selected_recipe docs key w' Hconf Hget Hrun.
    assert (PkgPtch.main config_path selected_recipe w = (Raise (KeyError key), w'))
      as Hmain.
    { rewrite (pkgptch_main_run _ _ _ _ Hconf). unfold bind at 1.
      rewrite (subscript_found _ _ _ _ Hget), Hrun. reflexivity. }
    split; [exact Hmain|]. now rewrite Hmain.
Qed.

Lemma pkgptch_reads_each_field_when_it_needs_it_witness :
  PkgPtch.main "partial.yaml" "web" edge_world =
    (Raise (KeyError "log_package_version_cmd"),
     emit (EvLog INFO (ExecutingRecipe "web")) edge_world) /\
  fst (LogPatch.main "partial.yaml" "web" edge_world) = Raise (SystemExit 1).
Proof.
  split; [|vm_compute; reflexivity].
  destruct (pkgptch_reads_each_field_when_it_needs_it
              [(KStr "name", YStr "web"); (KStr "log_patch_cmd", YInt 1)]
              edge_world) as (_ & _ & Hflag & _ & Hmain).
  apply (Hmain "partial.yaml" "web" _ _ _ eq_refl eq_refl).
  apply (Hflag "web"); reflexivity.
Defined.
